(** * external-dns: the reconciliation pass of [external-dns.go]

    A shallow embedding of the functions of [external-dns.go] and the
    properties of the pass they implement: building the desired record
    set from the metadata service, reading the provider's record set,
    the three-way difference between both, and the application of the
    difference to the provider. *)

From Stdlib Require Import ZArith String Ascii List.
From stdpp Require Import base option list strings gmap fin_maps fin_sets
  relations pretty.

Local Open Scope string_scope.
Local Open Scope Z_scope.
Local Open Scope list_scope.

(** ** Data model *)

(** Go's [error] values are rendered by [%v] through their message, so
    an error is modelled by its message; the [nil] error is [None]. *)
Definition error : Type := string.

(** A Go call returning [(value, err)]. *)
Inductive result (A : Type) : Type :=
| Ok (a : A)
| Err (e : error).
Arguments Ok {A} a.
Arguments Err {A} e.

(** Modelled from the spec: the declaration of [providers.DnsRecord] is
    outside [external-dns.go]; the source builds it positionally as
    [providers.DnsRecord{domainName, records, "A", 300}] and reads the
    fields [DomainName] and [Records]; the spec names the other two
    record type and TTL. *)
Record DnsRecord : Type := mkDnsRecord {
  DomainName : string;
  Records : list string;
  Type_ : string;
  TTL : Z
}.

#[global] Instance DnsRecord_eq_dec : EqDecision DnsRecord.
Proof. solve_decision. Defined.

(** The zero value of the struct, which Go returns when a map is read
    at a key it does not hold. *)
#[global] Instance DnsRecord_inhabited : Inhabited DnsRecord :=
  populate (mkDnsRecord "" [] "" 0).

(** [map[string]providers.DnsRecord] *)
Abbreviation RecordSet := (gmap string DnsRecord).

(** The fields of [metadata.Container] and [metadata.Host] the pass reads. *)
Record Container : Type := mkContainer {
  Name : string;
  ServiceName : string;
  StackName : string;
  HostUUID : string
}.

Record Host : Type := mkHost {
  AgentIP : string
}.

(** [metadata.Handler]: the two methods of the interface the pass calls. *)
Record Handler : Type := mkHandler {
  GetContainers : result (list Container);
  GetHost : string -> result Host
}.

(** Modelled from the spec: the type [Op] and its three values [Add],
    [Remove] and [Update] are declared outside [external-dns.go]. *)
Inductive Op : Type := Add | Remove | Update.

#[global] Instance Op_eq_dec : EqDecision Op.
Proof. solve_decision. Defined.

(** ** The [strings] package *)

(** [strings.Join(elems, sep)] *)
Definition Join (elems : list string) (sep : string) : string :=
  String.concat sep elems.

(** [strings.HasSuffix(s, suffix)]:
    [len(s) >= len(suffix) && s[len(s)-len(suffix):] == suffix] *)
Definition HasSuffix (s suffix : string) : bool :=
  (String.length suffix <=? String.length s)%nat
  && String.eqb
       (substring (String.length s - String.length suffix)
                  (String.length suffix) s)
       suffix.

(** [strings.ToLower] on the bytes of an ASCII string, where it maps
    ['A'..'Z'] to ['a'..'z'] and keeps every other byte.  The functions
    below take the lower-casing function as a parameter; this one
    instantiates it on the ASCII examples. *)
Definition lower_byte (c : ascii) : ascii :=
  let n := nat_of_ascii c in
  if ((65 <=? n) && (n <=? 90))%nat then ascii_of_nat (n + 32) else c.

Fixpoint ToLowerASCII (s : string) : string :=
  match s with
  | EmptyString => EmptyString
  | String c s' => String (lower_byte c) (ToLowerASCII s')
  end.

(** [fmt]'s [%v] for a slice of strings and for the record struct:
    the fields in declaration order, separated by spaces, in braces. *)
Definition fmt_strings (l : list string) : string :=
  "[" +:+ String.concat " " l +:+ "]".

Definition fmt_DnsRecord (r : DnsRecord) : string :=
  "{" +:+ DomainName r +:+ " " +:+ fmt_strings (Records r) +:+ " "
      +:+ Type_ r +:+ " " +:+ pretty (TTL r) +:+ "}".

(** ** The provider *)

(** A call of one of the three mutating methods of the provider. *)
Definition Call : Type := Op * DnsRecord.

(** Modelled from the spec: the package-level [provider] and its
    interface are declared outside [external-dns.go].  [GetRecords] is
    the answer to the one read of a pass; the answer to a mutating call
    may depend on the mutating calls made before it. *)
Record Provider : Type := mkProvider {
  GetRecords : result (list DnsRecord);
  AddRecord : list Call -> DnsRecord -> option error;
  RemoveRecord : list Call -> DnsRecord -> option error;
  UpdateRecord : list Call -> DnsRecord -> option error
}.

(** ** The sequential code of a pass *)

(** What a pass does to the outside, in the order it does it: the read
    of the metadata service, the read of the provider's records, a call
    of [updateRecords]. *)
Inductive Event : Type :=
| Read_metadata
| Read_provider
| Applied (op : Op) (toChange : list DnsRecord).

(** [UpdateDnsRecords], [addMissingRecords], [removeExtraRecords] and
    [updateExistingRecords] are sequential code around calls of
    [getMetadataDnsRecords], [getProviderDnsRecords] and
    [updateRecords]; a [Proc] is such code with these calls left open:
    the arguments of the call and the continuation that receives what
    it returns. *)
Inductive Proc (A : Type) : Type :=
| Return (a : A)
| Call_getMetadataDnsRecords (m : Handler)
    (k : RecordSet * option error -> Proc A)
| Call_getProviderDnsRecords (k : result RecordSet -> Proc A)
| Call_updateRecords (toChange : list DnsRecord) (op : Op)
    (k : option error -> Proc A).
Arguments Return {A} a.
Arguments Call_getMetadataDnsRecords {A} m k.
Arguments Call_getProviderDnsRecords {A} k.
Arguments Call_updateRecords {A} toChange op k.

Fixpoint bind {A B : Type} (p : Proc A) (f : A -> Proc B) : Proc B :=
  match p with
  | Return a => f a
  | Call_getMetadataDnsRecords m k =>
      Call_getMetadataDnsRecords m (fun r => bind (k r) f)
  | Call_getProviderDnsRecords k =>
      Call_getProviderDnsRecords (fun r => bind (k r) f)
  | Call_updateRecords toChange op k =>
      Call_updateRecords toChange op (fun err => bind (k err) f)
  end.

Notation "'let*' x ':=' p 'in' k" := (bind p (fun x => k))
  (at level 10, x pattern, p at level 100, k at level 200).

(** The order in which the three [for key := range] loops over the
    record sets of one pass visit the keys; Go leaves it unspecified. *)
Record RangeOrder : Type := mkRangeOrder {
  order_add : list string;
  order_remove : list string;
  order_update : list string
}.

(** [keys] is an order in which [range] can visit the keys of [m]. *)
Definition range_of (m : RecordSet) (keys : list string) : Prop :=
  keys ≡ₚ (map_to_list m).*1.

(** ** The goroutines of [updateRecords] *)

(** The goroutine of lines 67-89: waiting in [range values], holding a
    received value before the provider call, or returned with an error.
    The channel is never closed, so the [return nil] of line 88 is not
    reached. *)
Inductive Consumer : Type :=
| Receiving
| Handling (value : DnsRecord)
| Exited (err : error).

(** The state of one call of [updateRecords] after line 65. *)
Record Apply : Type := mkApply {
  blocked : list DnsRecord;  (* senders of lines 61-64 blocked in [values <- value] *)
  sent : nat;                (* senders past the send, before the deferred [wg.Done()] *)
  wg : nat;                  (* the counter of the WaitGroup *)
  consumer : Consumer;
  calls : list Call;         (* the mutating provider calls made so far *)
  returned : option (option error)  (* the value returned at line 91, once returned *)
}.

(** What the scheduler lets happen next. *)
Inductive Action : Type :=
| Receive (i : nat)  (* the consumer receives from the [i]-th blocked sender *)
| Done               (* a sender past its send runs [wg.Done()] *)
| Handle             (* the consumer runs the [switch] on the value it holds *)
| Wait.              (* [wg.Wait()] returns and line 91 runs *)

(** ** Concrete inputs *)

Definition ex_web : string := "web.stack.env.example.com".
Definition ex_old : string := "old.stack.env.example.com".

(** Two instances of the service [web] of the stack [stack], on two
    hosts. *)
Definition ex_hosts (uuid : string) : result Host :=
  if String.eqb uuid "host-1" then Ok (mkHost "10.0.0.1")
  else if String.eqb uuid "host-2" then Ok (mkHost "10.0.0.2")
  else Err "host not found".

Definition ex_web_1 : Container := mkContainer "web-1" "web" "stack" "host-1".
Definition ex_web_2 : Container := mkContainer "web-2" "web" "stack" "host-2".
Definition ex_lost : Container := mkContainer "web-3" "web" "stack" "host-3".
Definition ex_unnamed : Container := mkContainer "sidekick" "" "stack" "host-1".

Definition ex_first : Handler := mkHandler (Ok [ex_web_1]) ex_hosts.
Definition ex_second : Handler := mkHandler (Ok [ex_web_2]) ex_hosts.
Definition ex_both : Handler := mkHandler (Ok [ex_web_1; ex_web_2]) ex_hosts.

(** A provider whose every mutating call fails. *)
Definition ex_failing (records : list DnsRecord) : Provider :=
  mkProvider (Ok records)
    (fun _ _ => Some "boom") (fun _ _ => Some "boom") (fun _ _ => Some "boom").

Definition ex_record (name ip : string) : DnsRecord :=
  mkDnsRecord name [ip] "A" 300.

(** The scenario of the spec: one desired record whose value differs
    from the provider's, one record only the provider has. *)
Definition ex_desired : RecordSet :=
  {[ ex_web := ex_record ex_web "10.0.0.1" ]}.
Definition ex_current : RecordSet :=
  <[ ex_old := ex_record ex_old "10.0.0.9" ]>
    {[ ex_web := ex_record ex_web "10.0.0.2" ]}.
Definition ex_order : RangeOrder :=
  mkRangeOrder [ex_web] [ex_old; ex_web] [ex_web].

(** Provider records outside the spec's suffix: one ends with
    [env.example.com] without the dot before it, one has the suffix in
    upper case. *)
Definition ex_foreign : list DnsRecord :=
  [ex_record "xenv.example.com" "10.0.0.5";
   ex_record "WEB.STACK.ENV.EXAMPLE.COM" "10.0.0.6"].

(** A provider whose every mutating call succeeds. *)
Definition ex_accepting (records : list DnsRecord) : Provider :=
  mkProvider (Ok records) (fun _ _ => None) (fun _ _ => None) (fun _ _ => None).

(** No container at all. *)
Definition ex_none : Handler := mkHandler (Ok []) ex_hosts.

(** ** The functions of [external-dns.go] *)

Set Default Proof Using "Type".

Section ExternalDns.

(** The package-level configuration read by the pass, and
    [strings.ToLower]. *)
Variable EnvironmentName : string.
Variable RootDomainName : string.
Variable ToLower : string -> string.

(** The package-level [provider]. *)
Variable provider : Provider.

(** [addToDnsEntries] (lines 222-232).  The Go function stores into
    the map it is given; the model returns the updated map. *)
Definition addToDnsEntries (dnsEntry : DnsRecord) (dnsEntries : RecordSet)
  : RecordSet :=
  let records :=
    match dnsEntries !! DomainName dnsEntry with
    | Some _ => Records dnsEntry
    | None =>
        Records (dnsEntries !!! DomainName dnsEntry) ++ Records dnsEntry
    end in
  let dnsEntry' := mkDnsRecord (DomainName dnsEntry) records "A" 300 in
  <[DomainName dnsEntry' := dnsEntry']> dnsEntries.

(** The body of the loop of [getContainersDnsRecords] (lines 187-216)
    for one container; every [continue] leaves the map as it is. *)
Definition container_step (m : Handler) (serviceName stackName : string)
    (dnsEntries : RecordSet) (container : Container) : RecordSet :=
  if (String.length (ServiceName container) =? 0)%nat then dnsEntries
  else if negb (String.length serviceName =? 0)%nat
          && negb (String.eqb serviceName (ServiceName container))
  then dnsEntries
  else if negb (String.length serviceName =? 0)%nat
          && negb (String.eqb stackName (StackName container))
  then dnsEntries
  else
    let hostUUID := HostUUID container in
    if (String.length hostUUID =? 0)%nat then dnsEntries
    else
      match GetHost m hostUUID with
      | Err _ => dnsEntries
      | Ok host =>
          let ip := AgentIP host in
          let domainNameEntries :=
            [ServiceName container; StackName container;
             EnvironmentName; RootDomainName] in
          let domainName := ToLower (Join domainNameEntries ".") in
          let records := [ip] in
          let dnsEntry := mkDnsRecord domainName records "A" 300 in
          addToDnsEntries dnsEntry dnsEntries
      end.

(** [getContainersDnsRecords] (lines 180-220): the updated map and the
    returned error. *)
Definition getContainersDnsRecords (m : Handler) (dnsEntries : RecordSet)
    (serviceName stackName : string) : RecordSet * option error :=
  match GetContainers m with
  | Err err => (dnsEntries, Some err)
  | Ok containers =>
      (foldl (container_step m serviceName stackName) dnsEntries containers,
       None)
  end.

(** [getMetadataDnsRecords] (lines 171-178) *)
Definition getMetadataDnsRecords (m : Handler) : RecordSet * option error :=
  let dnsEntries : RecordSet := ∅ in
  getContainersDnsRecords m dnsEntries "" "".

(** The loop of [getProviderDnsRecords] (lines 163-167) *)
Definition ourRecords_loop (suffix : string) (ourRecords : RecordSet)
    (allRecords : list DnsRecord) : RecordSet :=
  foldl
    (fun (ourRecords : RecordSet) value =>
       if HasSuffix (DomainName value) suffix
       then <[DomainName value := value]> ourRecords
       else ourRecords)
    ourRecords allRecords.

(** [getProviderDnsRecords] (lines 155-169) *)
Definition getProviderDnsRecords : result RecordSet :=
  match GetRecords provider with
  | Err err => Err err
  | Ok allRecords =>
      let ourRecords : RecordSet := ∅ in
      let joins := [EnvironmentName; RootDomainName] in
      let suffix := ToLower (Join joins ".") in
      Ok (ourRecords_loop suffix ourRecords allRecords)
  end.

(** *** The difference *)

(** The loop of [addMissingRecords] (lines 40-45), visiting the keys
    of [metadataRecs] in the order [keys]. *)
Definition addMissingRecords_toAdd (keys : list string)
    (metadataRecs providerRecs : RecordSet) : list DnsRecord :=
  foldl
    (fun toAdd key =>
       match providerRecs !! key with
       | None => toAdd ++ [metadataRecs !!! key]
       | Some _ => toAdd
       end)
    [] keys.

(** The loop of [removeExtraRecords] (lines 139-144), visiting the
    keys of [providerRecs] in the order [keys]. *)
Definition removeExtraRecords_toRemove (keys : list string)
    (metadataRecs providerRecs : RecordSet) : list DnsRecord :=
  foldl
    (fun toRemove key =>
       match metadataRecs !! key with
       | None => toRemove ++ [providerRecs !!! key]
       | Some _ => toRemove
       end)
    [] keys.

(** One of the two loops of lines 111-120: [update] becomes true at
    every key that [other] does not hold. *)
Definition missing_loop (other : gset string) (update : bool)
    (keys : list string) : bool :=
  foldl (fun update key => if decide (key ∈ other) then update else true)
        update keys.

(** Lines 98-121: the comparison of the values of the two records
    under one key, as the final value of [update]. *)
Definition records_update (metadataRec providerRec : DnsRecord) : bool :=
  let metadataR : gset string := list_to_set (Records metadataRec) in
  let providerR : gset string := list_to_set (Records providerRec) in
  let update := false in
  if negb (size metadataR =? size providerR)%nat then true
  else
    let update := missing_loop providerR update (elements metadataR) in
    let update := missing_loop metadataR update (elements providerR) in
    update.

(** The loop of [updateExistingRecords] (lines 95-126), visiting the
    keys of [metadataRecs] in the order [keys]. *)
Definition updateExistingRecords_toUpdate (keys : list string)
    (metadataRecs providerRecs : RecordSet) : list DnsRecord :=
  foldl
    (fun toUpdate key =>
       match providerRecs !! key with
       | Some _ =>
           if records_update (metadataRecs !!! key) (providerRecs !!! key)
           then toUpdate ++ [metadataRecs !!! key]
           else toUpdate
       | None => toUpdate
       end)
    [] keys.

(** [addMissingRecords] (lines 39-53) *)
Definition addMissingRecords (keys : list string)
    (metadataRecs providerRecs : RecordSet) : Proc (option error) :=
  let toAdd := addMissingRecords_toAdd keys metadataRecs providerRecs in
  if (length toAdd =? 0)%nat then Return None
  else Call_updateRecords toAdd Add Return.

(** [removeExtraRecords] (lines 138-153) *)
Definition removeExtraRecords (keys : list string)
    (metadataRecs providerRecs : RecordSet) : Proc (option error) :=
  let toRemove :=
    removeExtraRecords_toRemove keys metadataRecs providerRecs in
  if (length toRemove =? 0)%nat then Return None
  else Call_updateRecords toRemove Remove Return.

(** [updateExistingRecords] (lines 94-136) *)
Definition updateExistingRecords (keys : list string)
    (metadataRecs providerRecs : RecordSet) : Proc (option error) :=
  let toUpdate :=
    updateExistingRecords_toUpdate keys metadataRecs providerRecs in
  if (length toUpdate =? 0)%nat then Return None
  else Call_updateRecords toUpdate Update Return.

(** [UpdateDnsRecords] (lines 12-37) *)
Definition UpdateDnsRecords (m : Handler) (order : RangeOrder)
  : Proc (option error) :=
  let* (metadataRecs, err) := Call_getMetadataDnsRecords m Return in
  match err with
  | Some err =>
      Return (Some ("Error reading external dns entries: " +:+ err))
  | None =>
  let* providerRecs := Call_getProviderDnsRecords Return in
  match providerRecs with
  | Err err =>
      Return (Some ("Provider error reading dns entries: " +:+ err))
  | Ok providerRecs =>
  let* err := addMissingRecords (order_add order) metadataRecs providerRecs in
  match err with
  | Some err => Return (Some ("Failed to add missing records: " +:+ err))
  | None =>
  let* err :=
    removeExtraRecords (order_remove order) metadataRecs providerRecs in
  match err with
  | Some err => Return (Some ("Failed to remove extra records: " +:+ err))
  | None =>
  let* err :=
    updateExistingRecords (order_update order) metadataRecs providerRecs in
  match err with
  | Some err =>
      Return (Some ("Failed to update existing records records: " +:+ err))
  | None => Return None
  end end end end end.

(** Running a [Proc]: the two reads return what [getMetadataDnsRecords]
    and [getProviderDnsRecords] return, the call
    [updateRecords(toChange, &op)] returns [answer op toChange]; the
    events in the order they happen, and the result. *)
Fixpoint run {A : Type} (answer : Op -> list DnsRecord -> option error)
    (p : Proc A) : list Event * A :=
  match p with
  | Return a => ([], a)
  | Call_getMetadataDnsRecords m k =>
      let '(events, a) := run answer (k (getMetadataDnsRecords m)) in
      (Read_metadata :: events, a)
  | Call_getProviderDnsRecords k =>
      let '(events, a) := run answer (k getProviderDnsRecords) in
      (Read_provider :: events, a)
  | Call_updateRecords toChange op k =>
      let '(events, a) := run answer (k (answer op toChange)) in
      (Applied op toChange :: events, a)
  end.

(** *** [updateRecords] (lines 55-92) *)

(** The [switch *op] of lines 69-86 on a received [value], after the
    mutating calls [history]: the error the goroutine returns with,
    if the provider call fails. *)
Definition handle (op : Op) (history : list Call) (value : DnsRecord)
  : option error :=
  match op with
  | Add =>
      match AddRecord provider history value with
      | Some err =>
          Some ("Failed to add DNS record " +:+ fmt_DnsRecord value
                +:+ ": " +:+ err)
      | None => None
      end
  | Remove =>
      match RemoveRecord provider history value with
      | Some err =>
          Some ("Failed to remove DNS record " +:+ fmt_DnsRecord value
                +:+ ": " +:+ err)
      | None => None
      end
  | Update =>
      match UpdateRecord provider history value with
      | Some err =>
          Some ("Failed to update DNS record " +:+ fmt_DnsRecord value
                +:+ ": " +:+ err)
      | None => None
      end
  end.

(** The state once lines 56-67 have run: [wg.Add(len(toChange))], one
    sender per record, the consumer started. *)
Definition updateRecords_init (toChange : list DnsRecord)
    (history : list Call) : Apply :=
  mkApply toChange 0 (length toChange) Receiving history None.

(** One step of one goroutine; [None] when the step cannot happen in
    the state. *)
Definition step (op : Op) (a : Action) (s : Apply) : option Apply :=
  match a with
  | Receive i =>
      match consumer s, blocked s !! i with
      | Receiving, Some value =>
          Some (mkApply (delete i (blocked s)) (S (sent s)) (wg s)
                  (Handling value) (calls s) (returned s))
      | _, _ => None
      end
  | Done =>
      match sent s with
      | S n =>
          Some (mkApply (blocked s) n (wg s - 1)%nat (consumer s) (calls s)
                  (returned s))
      | O => None
      end
  | Handle =>
      match consumer s with
      | Handling value =>
          let consumer' :=
            match handle op (calls s) value with
            | Some err => Exited err
            | None => Receiving
            end in
          Some (mkApply (blocked s) (sent s) (wg s) consumer'
                  (calls s ++ [(op, value)]) (returned s))
      | _ => None
      end
  | Wait =>
      match returned s, wg s with
      | None, O =>
          Some (mkApply (blocked s) (sent s) (wg s) (consumer s) (calls s)
                  (Some None))
      | _, _ => None
      end
  end.

(** The state after the steps of a schedule, when each can happen. *)
Fixpoint steps (op : Op) (schedule : list Action) (s : Apply)
  : option Apply :=
  match schedule with
  | [] => Some s
  | a :: schedule' =>
      match step op a s with
      | Some s' => steps op schedule' s'
      | None => None
      end
  end.

(** *** Definitions of the statements *)

(** Every key of the record set is the domain name of its record. *)
Definition keyed (rs : RecordSet) : Prop :=
  map_Forall (fun key r => DomainName r = key) rs.

(** Every record of the set has type ["A"] and TTL 300. *)
Definition constant_fields (rs : RecordSet) : Prop :=
  map_Forall (fun _ r => Type_ r = "A" /\ TTL r = 300) rs.

(** An instance the builder cannot use: its service name is empty, its
    host identifier is empty, or the lookup of its host fails. *)
Definition unusable (m : Handler) (container : Container) : bool :=
  (String.length (ServiceName container) =? 0)%nat
  || (String.length (HostUUID container) =? 0)%nat
  || match GetHost m (HostUUID container) with
     | Err _ => true
     | Ok _ => false
     end.

(** The records of [allRecords] under the domain name [key] that the
    loop of [getProviderDnsRecords] stores. *)
Definition stored_under (suffix key : string) (allRecords : list DnsRecord)
  : list DnsRecord :=
  List.filter
    (fun value =>
       HasSuffix (DomainName value) suffix
       && String.eqb (DomainName value) key)
    allRecords.

(** The spec's comparison of two records: their values are equal as
    sets, whatever the order and the repetitions. *)
Definition same_values (a b : DnsRecord) : Prop :=
  forall v, v ∈ Records a <-> v ∈ Records b.

(** The domain names of a list of records. *)
Definition names (l : list DnsRecord) : list string := DomainName <$> l.

(** A domain name the difference leaves alone: both sets hold it, with
    the same values as sets. *)
Definition unchanged (desired current : RecordSet) (name : string) : Prop :=
  exists d c,
    desired !! name = Some d /\ current !! name = Some c /\ same_values d c.

(** What the loops of [addMissingRecords], [removeExtraRecords] and
    [updateExistingRecords] append at a key, if anything. *)
Definition select_add (metadataRecs providerRecs : RecordSet) (key : string)
  : option DnsRecord :=
  match providerRecs !! key with
  | None => Some (metadataRecs !!! key)
  | Some _ => None
  end.

Definition select_remove (metadataRecs providerRecs : RecordSet)
    (key : string) : option DnsRecord :=
  match metadataRecs !! key with
  | None => Some (providerRecs !!! key)
  | Some _ => None
  end.

Definition select_update (metadataRecs providerRecs : RecordSet)
    (key : string) : option DnsRecord :=
  match providerRecs !! key with
  | Some _ =>
      if records_update (metadataRecs !!! key) (providerRecs !!! key)
      then Some (metadataRecs !!! key) else None
  | None => None
  end.

(** The orders of the three loops of a pass are orders of the keys of
    the maps the loops range over. *)
Definition ranges (desired current : RecordSet) (order : RangeOrder) : Prop :=
  range_of desired (order_add order)
  /\ range_of current (order_remove order)
  /\ range_of desired (order_update order).

(** The suffix the spec gives to the records of this system, with its
    leading dot. *)
Definition spec_suffix : string :=
  "." +:+ EnvironmentName +:+ "." +:+ RootDomainName.

(** The spec's test of a domain name: it ends with [spec_suffix] when
    the case of the letters is ignored. *)
Definition spec_owned (domainName : string) : bool :=
  HasSuffix (ToLower domainName) (ToLower spec_suffix).

(** The spec's reading of [getProviderDnsRecords]: the record set holds
    exactly the provider's records that pass [spec_owned], each under
    its domain name. *)
Definition spec_filter : Prop :=
  match GetRecords provider, getProviderDnsRecords with
  | Ok allRecords, Ok ourRecords =>
      forall r, ourRecords !! DomainName r = Some r
                <-> r ∈ allRecords /\ spec_owned (DomainName r) = true
  | _, _ => True
  end.

(** The suffix [getProviderDnsRecords] tests (lines 161-162). *)
Definition code_suffix : string :=
  ToLower (EnvironmentName +:+ "." +:+ RootDomainName).

(** The text a failing phase is reported under. *)
Definition phase_name (op : Op) : string :=
  match op with
  | Add => "Failed to add missing records: "
  | Remove => "Failed to remove extra records: "
  | Update => "Failed to update existing records records: "
  end.

(** The spec's sequence: the phases one after the other in the order
    of the list; the first error a phase returns is wrapped with the
    name of the phase and returned, and no later phase is run. *)
Fixpoint phases_in_order (answer : Op -> list DnsRecord -> option error)
    (phases : list (Op * list DnsRecord)) : list Event * option error :=
  match phases with
  | [] => ([], None)
  | (op, toChange) :: phases' =>
      match answer op toChange with
      | Some err => ([Applied op toChange], Some (phase_name op +:+ err))
      | None =>
          let '(events, result) := phases_in_order answer phases' in
          (Applied op toChange :: events, result)
      end
  end.

(** A phase with an empty list makes no call of [updateRecords]
    (lines 46-48, 128-130, 146-148). *)
Definition with_records (phases : list (Op * list DnsRecord))
  : list (Op * list DnsRecord) :=
  List.filter (fun phase => negb (length phase.2 =? 0)%nat) phases.

(** The counter of the WaitGroup counts the senders that have not run
    [wg.Done()]; once the consumer has received a value and every
    provider call fails, one sender less is blocked and the consumer
    receives no more. *)
Definition stuck_invariant (n : nat) (s : Apply) : Prop :=
  wg s = (length (blocked s) + sent s)%nat
  /\ returned s = None
  /\ match consumer s with
     | Receiving => length (blocked s) = n
     | _ => S (length (blocked s)) = n
     end.

(** What the loop of [getContainersDnsRecords] hands to
    [addToDnsEntries] for one container, when it gets past every
    [continue] (lines 187-214). *)
Definition contribution (m : Handler) (serviceName stackName : string)
    (container : Container) : option DnsRecord :=
  if (String.length (ServiceName container) =? 0)%nat then None
  else if negb (String.length serviceName =? 0)%nat
          && negb (String.eqb serviceName (ServiceName container))
  then None
  else if negb (String.length serviceName =? 0)%nat
          && negb (String.eqb stackName (StackName container))
  then None
  else if (String.length (HostUUID container) =? 0)%nat then None
  else
    match GetHost m (HostUUID container) with
    | Err _ => None
    | Ok host =>
        Some (mkDnsRecord
                (ToLower
                   (Join [ServiceName container; StackName container;
                          EnvironmentName; RootDomainName] "."))
                [AgentIP host] "A" 300)
    end.

(** The records of a list under one domain name. *)
Definition under (key : string) (records : list DnsRecord) : list DnsRecord :=
  List.filter (fun r => String.eqb (DomainName r) key) records.


(** The value the consumer holds between its receive and the provider
    call. *)
Definition held (s : Apply) : list DnsRecord :=
  match consumer s with
  | Handling value => [value]
  | _ => []
  end.

(** The provider calls for [values], made one after the other in this
    order after the calls [history], all succeed. *)
Fixpoint all_succeed (op : Op) (history : list Call)
    (values : list DnsRecord) : bool :=
  match values with
  | [] => true
  | value :: values' =>
      match handle op history value with
      | None => all_succeed op (history ++ [(op, value)]) values'
      | Some _ => false
      end
  end.

(** What holds of every state of a call [updateRecords(toChange, &op)]
    started after the calls [history]; [handled] are the records whose
    provider call has been made, in the order of the calls. *)
Definition updateRecords_invariant (toChange : list DnsRecord) (op : Op)
    (history : list Call) (s : Apply) : Prop :=
  exists handled,
    calls s = history ++ (pair op <$> handled)
    /\ toChange ≡ₚ blocked s ++ held s ++ handled
    /\ wg s = (length (blocked s) + sent s)%nat
    /\ (returned s <> None -> wg s = 0%nat)
    /\ match consumer s with
       | Exited err =>
           exists before value,
             handled = before ++ [value]
             /\ all_succeed op history before = true
             /\ handle op (history ++ (pair op <$> before)) value = Some err
       | _ => all_succeed op history handled = true
       end.

(** The consumer has exited while a sender is still blocked. *)
Definition stuck (s : Apply) : Prop :=
  (exists err, consumer s = Exited err)
  /\ blocked s <> []
  /\ wg s = (length (blocked s) + sent s)%nat
  /\ returned s = None.

(** The schedule that lets the records through one after the other:
    the consumer receives from the first blocked sender, the sender
    runs [wg.Done()], the consumer makes the provider call; at the end
    [wg.Wait()] returns. *)
Definition in_turn (n : nat) : list Action :=
  mjoin (replicate n [Receive 0; Done; Handle]) ++ [Wait].

(** ** Properties of the desired record set *)

(** Whatever the map holds, [addToDnsEntries] stores the values of the
    new entry alone under its domain name: when the name is present
    the values are those of the entry (line 225), when it is absent
    they are appended to the empty values of the zero record. *)
Lemma addToDnsEntries_insert dnsEntry (dnsEntries : RecordSet) :
  addToDnsEntries dnsEntry dnsEntries
  = <[DomainName dnsEntry :=
        mkDnsRecord (DomainName dnsEntry) (Records dnsEntry) "A" 300]>
      dnsEntries.
Proof.
  unfold addToDnsEntries; simpl.
  destruct (dnsEntries !! DomainName dnsEntry) as [old|] eqn:Hold; [done|].
  by rewrite lookup_total_alt, Hold.
Qed.

Lemma addToDnsEntries_keyed dnsEntry (dnsEntries : RecordSet) :
  keyed dnsEntries -> keyed (addToDnsEntries dnsEntry dnsEntries).
Proof.
  intros Hk. rewrite addToDnsEntries_insert.
  apply map_Forall_insert_2; [done | exact Hk].
Qed.

Lemma addToDnsEntries_constant_fields dnsEntry (dnsEntries : RecordSet) :
  constant_fields dnsEntries ->
  constant_fields (addToDnsEntries dnsEntry dnsEntries).
Proof.
  intros Hk. rewrite addToDnsEntries_insert.
  apply map_Forall_insert_2; [done | exact Hk].
Qed.

(** An invariant of the map that [addToDnsEntries] keeps for the
    entries of the loop over the containers is kept by the loop. *)
Lemma container_loop_invariant (P : RecordSet -> Prop) m serviceName
    stackName :
  (forall name ip dnsEntries,
      P dnsEntries ->
      P (addToDnsEntries (mkDnsRecord name [ip] "A" 300) dnsEntries)) ->
  forall containers dnsEntries,
    P dnsEntries ->
    P (foldl (container_step m serviceName stackName) dnsEntries containers).
Proof.
  intros Hadd containers.
  induction containers as [|c containers IH]; intros dnsEntries HP; [done|].
  simpl. apply IH. unfold container_step.
  repeat case_match; auto.
Qed.

Lemma container_step_unusable m serviceName stackName dnsEntries container :
  unusable m container = true ->
  container_step m serviceName stackName dnsEntries container = dnsEntries.
Proof.
  unfold unusable, container_step. intros Hun.
  repeat case_match; done.
Qed.

Lemma container_loop_filter m serviceName stackName containers :
  forall dnsEntries,
    foldl (container_step m serviceName stackName) dnsEntries containers
    = foldl (container_step m serviceName stackName) dnsEntries
        (List.filter (fun c => negb (unusable m c)) containers).
Proof.
  induction containers as [|c containers IH]; intros dnsEntries; [done|].
  simpl. destruct (unusable m c) eqn:Hun; simpl.
  - rewrite container_step_unusable by done. apply IH.
  - apply IH.
Qed.

(** C8: the builder returns an error exactly when the read of the
    containers fails, and then that error; an instance with an empty
    service name, or whose host lookup fails, leaves the map being
    built as it is, and the build gives what it gives on the list
    without such instances. *)
Theorem getContainersDnsRecords_skips_instances
    m dnsEntries serviceName stackName :
  match GetContainers m with
  | Err err =>
      getContainersDnsRecords m dnsEntries serviceName stackName
      = (dnsEntries, Some err)
  | Ok containers =>
      (getContainersDnsRecords m dnsEntries serviceName stackName).2 = None
      /\ getContainersDnsRecords m dnsEntries serviceName stackName
         = getContainersDnsRecords
             (mkHandler
                (Ok (List.filter (fun c => negb (unusable m c)) containers))
                (GetHost m))
             dnsEntries serviceName stackName
  end
  /\ forall container entries,
      ServiceName container = ""
      \/ (exists err, GetHost m (HostUUID container) = Err err) ->
      container_step m serviceName stackName entries container = entries.
Proof.
  split.
  - unfold getContainersDnsRecords.
    destruct (GetContainers m) as [containers|err] eqn:Hget; [|done].
    split; [done|]. simpl.
    by rewrite container_loop_filter.
  - intros container entries Hskip.
    apply container_step_unusable. unfold unusable.
    destruct Hskip as [Hname|[err Herr]].
    + by rewrite Hname.
    + rewrite Herr. by rewrite orb_true_r.
Qed.

(** ** Properties of the provider's record set *)

Lemma ourRecords_loop_lookup suffix key allRecords :
  forall ourRecords : RecordSet,
    ourRecords_loop suffix ourRecords allRecords !! key
    = match last (stored_under suffix key allRecords) with
      | Some value => Some value
      | None => ourRecords !! key
      end.
Proof.
  unfold ourRecords_loop, stored_under.
  induction allRecords as [|value allRecords IH] using rev_ind;
    intros ourRecords; [done|].
  rewrite foldl_app, List.filter_app. simpl.
  destruct (HasSuffix (DomainName value) suffix) eqn:Hsuf; simpl.
  - destruct (String.eqb_spec (DomainName value) key) as [->|Hne].
    + by rewrite last_snoc, lookup_insert_eq.
    + rewrite app_nil_r, lookup_insert_ne by done. apply IH.
  - rewrite app_nil_r. apply IH.
Qed.

Lemma ourRecords_loop_keyed suffix allRecords :
  forall ourRecords : RecordSet,
    keyed ourRecords -> keyed (ourRecords_loop suffix ourRecords allRecords).
Proof.
  unfold ourRecords_loop.
  induction allRecords as [|value allRecords IH]; intros ourRecords Hk;
    [done|].
  simpl. apply IH. case_match; [|done].
  by apply map_Forall_insert_2.
Qed.

(** C9: in the desired record set and in the provider's record set of
    a pass, every key is the domain name of the record under it. *)
Theorem record_sets_keyed m :
  keyed (getMetadataDnsRecords m).1
  /\ match getProviderDnsRecords with
     | Ok providerRecs => keyed providerRecs
     | Err _ => True
     end.
Proof.
  split.
  - unfold getMetadataDnsRecords, getContainersDnsRecords.
    destruct (GetContainers m) as [containers|err]; simpl.
    + apply (container_loop_invariant keyed).
      * intros; by apply addToDnsEntries_keyed.
      * apply map_Forall_empty.
    + apply map_Forall_empty.
  - unfold getProviderDnsRecords.
    destruct (GetRecords provider) as [allRecords|err]; [|done].
    apply ourRecords_loop_keyed, map_Forall_empty.
Qed.

(** C10: every record of the desired record set has type ["A"] and TTL
    300, and the record [addToDnsEntries] stores has them whatever the
    entry and the map it is given. *)
Theorem desired_records_constant_fields m :
  constant_fields (getMetadataDnsRecords m).1
  /\ forall dnsEntry (dnsEntries : RecordSet),
      exists records,
        addToDnsEntries dnsEntry dnsEntries !! DomainName dnsEntry
        = Some (mkDnsRecord (DomainName dnsEntry) records "A" 300).
Proof.
  split.
  - unfold getMetadataDnsRecords, getContainersDnsRecords.
    destruct (GetContainers m) as [containers|err]; simpl.
    + apply (container_loop_invariant constant_fields).
      * intros; by apply addToDnsEntries_constant_fields.
      * apply map_Forall_empty.
    + apply map_Forall_empty.
  - intros dnsEntry dnsEntries. exists (Records dnsEntry).
    by rewrite addToDnsEntries_insert, lookup_insert_eq.
Qed.

(** Every record of the desired record set has one value: the IP of the
    last instance read with its domain name. *)
Lemma desired_records_one_value m :
  map_Forall (fun _ r => exists ip, Records r = [ip])
    (getMetadataDnsRecords m).1.
Proof.
  unfold getMetadataDnsRecords, getContainersDnsRecords.
  destruct (GetContainers m) as [containers|err]; simpl.
  - apply (container_loop_invariant
             (map_Forall (fun _ r => exists ip, Records r = [ip]))).
    + intros name ip dnsEntries HP. rewrite addToDnsEntries_insert.
      apply map_Forall_insert_2; [by exists ip | exact HP].
    + apply map_Forall_empty.
  - apply map_Forall_empty.
Qed.

(** ** Properties of the difference *)

(** The three loops select a record at some of the keys they visit. *)
Lemma foldl_select {A B : Type} (select : A -> option B)
    (f : list B -> A -> list B) :
  (forall acc a, f acc a = acc ++ option_list (select a)) ->
  forall l acc, foldl f acc l = acc ++ omap select l.
Proof.
  intros Hf l. induction l as [|a l IH]; intros acc; simpl.
  - by rewrite app_nil_r.
  - rewrite IH, Hf, <- app_assoc. by destruct (select a).
Qed.

Lemma toAdd_omap keys metadataRecs providerRecs :
  addMissingRecords_toAdd keys metadataRecs providerRecs
  = omap (select_add metadataRecs providerRecs) keys.
Proof.
  unfold addMissingRecords_toAdd.
  rewrite (foldl_select (select_add metadataRecs providerRecs)); [done|].
  intros acc key. unfold select_add.
  destruct (providerRecs !! key); simpl; by rewrite ?app_nil_r.
Qed.

Lemma toRemove_omap keys metadataRecs providerRecs :
  removeExtraRecords_toRemove keys metadataRecs providerRecs
  = omap (select_remove metadataRecs providerRecs) keys.
Proof.
  unfold removeExtraRecords_toRemove.
  rewrite (foldl_select (select_remove metadataRecs providerRecs)); [done|].
  intros acc key. unfold select_remove.
  destruct (metadataRecs !! key); simpl; by rewrite ?app_nil_r.
Qed.

Lemma toUpdate_omap keys metadataRecs providerRecs :
  updateExistingRecords_toUpdate keys metadataRecs providerRecs
  = omap (select_update metadataRecs providerRecs) keys.
Proof.
  unfold updateExistingRecords_toUpdate.
  rewrite (foldl_select (select_update metadataRecs providerRecs)); [done|].
  intros acc key. unfold select_update.
  destruct (providerRecs !! key); simpl; [|by rewrite app_nil_r].
  destruct (records_update _ _); simpl; by rewrite ?app_nil_r.
Qed.

Lemma range_of_elem (m : RecordSet) keys key :
  range_of m keys -> key ∈ keys <-> is_Some (m !! key).
Proof.
  unfold range_of. intros ->.
  rewrite list_elem_of_fmap. split.
  - intros [[k r] [-> Hin%elem_of_map_to_list]]. by exists r.
  - intros [r Hr]. exists (key, r). split; [done|].
    by apply elem_of_map_to_list.
Qed.

Lemma range_of_NoDup (m : RecordSet) keys : range_of m keys -> NoDup keys.
Proof.
  unfold range_of. intros ->. apply NoDup_fst_map_to_list.
Qed.

Lemma NoDup_names_omap (select : string -> option DnsRecord) keys :
  NoDup keys ->
  (forall key r, key ∈ keys -> select key = Some r -> DomainName r = key) ->
  NoDup (names (omap select keys)).
Proof.
  intros Hnd. unfold names.
  induction Hnd as [|key keys Hnotin Hnd IH]; intros Hsel; simpl;
    [constructor|].
  assert (Htail : NoDup (DomainName <$> omap select keys)).
  { apply IH. intros k r Hk. apply Hsel. by right. }
  destruct (select key) as [r|] eqn:Hr; simpl; [|exact Htail].
  constructor; [|exact Htail].
  intros (r' & Heq & Hin%list_elem_of_omap)%list_elem_of_fmap.
  destruct Hin as (key' & Hkey' & Hr').
  apply Hsel in Hr; [|by left]. apply Hsel in Hr'; [|by right].
  congruence.
Qed.

(** The flag set by one of the loops of lines 111-120. *)
Lemma missing_loop_true other update keys :
  missing_loop other update keys = true
  <-> update = true \/ exists key, key ∈ keys /\ key ∉ other.
Proof.
  unfold missing_loop. revert update.
  induction keys as [|key keys IH]; intros update; simpl.
  - split; [by left|]. intros [?|(key & Hin & _)]; [done|].
    by apply elem_of_nil in Hin.
  - rewrite IH. setoid_rewrite elem_of_cons.
    destruct (decide (key ∈ other)) as [Hin|Hnotin].
    + split.
      * intros [?|(k & ? & ?)]; [by left | right; exists k; auto].
      * intros [?|(k & [->|?] & ?)]; [by left | done | right; by exists k].
    + split; [|by left].
      intros _. right. exists key. auto.
Qed.

Lemma same_values_sets (a b : DnsRecord) :
  same_values a b
  <-> (list_to_set (Records a) : gset string) = list_to_set (Records b).
Proof.
  unfold same_values. rewrite set_eq.
  by setoid_rewrite elem_of_list_to_set.
Qed.

(** The comparison of lines 98-121 asks for an update exactly when the
    values of the two records differ as sets. *)
Lemma records_update_spec (a b : DnsRecord) :
  records_update a b = true <-> ~ same_values a b.
Proof.
  rewrite same_values_sets. unfold records_update.
  set (A := list_to_set (Records a) : gset string).
  set (B := list_to_set (Records b) : gset string).
  destruct (size A =? size B)%nat eqn:Hsize; simpl.
  - rewrite missing_loop_true, missing_loop_true.
    setoid_rewrite elem_of_elements. split.
    + intros [[?|(k & ? & ?)]|(k & ? & ?)] Heq; [done|..];
        rewrite Heq in *; done.
    + intros Hne.
      destruct (decide (set_Forall (fun k => k ∈ B) A)) as [HAB|HAB].
      * right.
        destruct (decide (set_Forall (fun k => k ∈ A) B)) as [HBA|HBA].
        -- destruct Hne. apply set_eq. intros k. split; [apply HAB|apply HBA].
        -- apply (not_set_Forall_Exists _) in HBA.
           destruct HBA as (k & ? & ?). by exists k.
      * left. right. apply (not_set_Forall_Exists _) in HAB.
        destruct HAB as (k & ? & ?). by exists k.
  - split; [|done]. intros _ Heq. rewrite Heq in Hsize.
    by rewrite Nat.eqb_refl in Hsize.
Qed.

Lemma elem_of_toAdd (desired current : RecordSet) keys r :
  keyed desired -> range_of desired keys ->
  r ∈ addMissingRecords_toAdd keys desired current
  <-> desired !! DomainName r = Some r /\ current !! DomainName r = None.
Proof.
  intros Hk Hkeys. rewrite toAdd_omap, list_elem_of_omap.
  unfold select_add. split.
  - intros (key & [d Hd]%(range_of_elem _ _ _ Hkeys) & Hsel).
    destruct (current !! key) eqn:Hc; [done|].
    rewrite (lookup_total_correct _ _ _ Hd) in Hsel.
    injection Hsel as ->. by rewrite (Hk _ _ Hd).
  - intros [Hd Hc]. exists (DomainName r). split.
    + apply (range_of_elem _ _ _ Hkeys). by exists r.
    + by rewrite Hc, (lookup_total_correct _ _ _ Hd).
Qed.

Lemma elem_of_toRemove (desired current : RecordSet) keys r :
  keyed current -> range_of current keys ->
  r ∈ removeExtraRecords_toRemove keys desired current
  <-> current !! DomainName r = Some r /\ desired !! DomainName r = None.
Proof.
  intros Hk Hkeys. rewrite toRemove_omap, list_elem_of_omap.
  unfold select_remove. split.
  - intros (key & [c Hc]%(range_of_elem _ _ _ Hkeys) & Hsel).
    destruct (desired !! key) eqn:Hd; [done|].
    rewrite (lookup_total_correct _ _ _ Hc) in Hsel.
    injection Hsel as ->. by rewrite (Hk _ _ Hc).
  - intros [Hc Hd]. exists (DomainName r). split.
    + apply (range_of_elem _ _ _ Hkeys). by exists r.
    + by rewrite Hd, (lookup_total_correct _ _ _ Hc).
Qed.

Lemma elem_of_toUpdate (desired current : RecordSet) keys r :
  keyed desired -> range_of desired keys ->
  r ∈ updateExistingRecords_toUpdate keys desired current
  <-> desired !! DomainName r = Some r
      /\ exists c, current !! DomainName r = Some c /\ ~ same_values r c.
Proof.
  intros Hk Hkeys. rewrite toUpdate_omap, list_elem_of_omap.
  unfold select_update. split.
  - intros (key & [d Hd]%(range_of_elem _ _ _ Hkeys) & Hsel).
    destruct (current !! key) as [c|] eqn:Hc; [|done].
    rewrite (lookup_total_correct _ _ _ Hd),
      (lookup_total_correct _ _ _ Hc) in Hsel.
    destruct (records_update d c) eqn:Hup; [|done].
    injection Hsel as ->. rewrite (Hk _ _ Hd). split; [done|].
    exists c. split; [done|]. by apply records_update_spec.
  - intros (Hd & c & Hc & Hne). exists (DomainName r). split.
    + apply (range_of_elem _ _ _ Hkeys). by exists r.
    + rewrite Hc, (lookup_total_correct _ _ _ Hd),
        (lookup_total_correct _ _ _ Hc).
      apply records_update_spec in Hne. by rewrite Hne.
Qed.

Lemma NoDup_names_toAdd (desired current : RecordSet) keys :
  keyed desired -> range_of desired keys ->
  NoDup (names (addMissingRecords_toAdd keys desired current)).
Proof.
  intros Hk Hkeys. rewrite toAdd_omap.
  apply NoDup_names_omap; [by eapply range_of_NoDup|].
  intros key r [d Hd]%(range_of_elem _ _ _ Hkeys). unfold select_add.
  rewrite (lookup_total_correct _ _ _ Hd).
  destruct (current !! key); [done|]. intros [= <-]. by apply (Hk _ _ Hd).
Qed.

Lemma NoDup_names_toRemove (desired current : RecordSet) keys :
  keyed current -> range_of current keys ->
  NoDup (names (removeExtraRecords_toRemove keys desired current)).
Proof.
  intros Hk Hkeys. rewrite toRemove_omap.
  apply NoDup_names_omap; [by eapply range_of_NoDup|].
  intros key r [c Hc]%(range_of_elem _ _ _ Hkeys). unfold select_remove.
  rewrite (lookup_total_correct _ _ _ Hc).
  destruct (desired !! key); [done|]. intros [= <-]. by apply (Hk _ _ Hc).
Qed.

Lemma NoDup_names_toUpdate (desired current : RecordSet) keys :
  keyed desired -> range_of desired keys ->
  NoDup (names (updateExistingRecords_toUpdate keys desired current)).
Proof.
  intros Hk Hkeys. rewrite toUpdate_omap.
  apply NoDup_names_omap; [by eapply range_of_NoDup|].
  intros key r [d Hd]%(range_of_elem _ _ _ Hkeys). unfold select_update.
  rewrite (lookup_total_correct _ _ _ Hd).
  destruct (current !! key); [|done].
  destruct (records_update _ _); [|done].
  intros [= <-]. by apply (Hk _ _ Hd).
Qed.

(** C3: [toAdd] holds exactly the desired records whose domain name
    the current set lacks, [toRemove] exactly the current records
    whose domain name the desired set lacks, [toUpdate] exactly the
    desired records whose domain name is in both sets with values that
    differ as sets; each holds a domain name at most once; and the
    comparison reads nothing of the two records but their values. *)
Theorem diff_lists (desired current : RecordSet) (order : RangeOrder) :
  keyed desired -> keyed current -> ranges desired current order ->
  let toAdd := addMissingRecords_toAdd (order_add order) desired current in
  let toRemove :=
    removeExtraRecords_toRemove (order_remove order) desired current in
  let toUpdate :=
    updateExistingRecords_toUpdate (order_update order) desired current in
  (forall r, r ∈ toAdd
             <-> desired !! DomainName r = Some r
                 /\ current !! DomainName r = None)
  /\ (forall r, r ∈ toRemove
                <-> current !! DomainName r = Some r
                    /\ desired !! DomainName r = None)
  /\ (forall r, r ∈ toUpdate
                <-> desired !! DomainName r = Some r
                    /\ exists c, current !! DomainName r = Some c
                                 /\ ~ same_values r c)
  /\ NoDup (names toAdd) /\ NoDup (names toRemove) /\ NoDup (names toUpdate)
  /\ (forall a b a' b',
         Records a = Records a' -> Records b = Records b' ->
         records_update a b = records_update a' b').
Proof.
  intros Hd Hc (Hadd & Hremove & Hupdate). simpl.
  split; [intros r; by apply elem_of_toAdd|].
  split; [intros r; by apply elem_of_toRemove|].
  split; [intros r; by apply elem_of_toUpdate|].
  split; [by apply NoDup_names_toAdd|].
  split; [by apply NoDup_names_toRemove|].
  split; [by apply NoDup_names_toUpdate|].
  intros a b a' b' Ha Hb. unfold records_update. by rewrite Ha, Hb.
Qed.

Lemma elem_of_names l name :
  name ∈ names l <-> exists r, r ∈ l /\ DomainName r = name.
Proof.
  unfold names. rewrite list_elem_of_fmap. split.
  - intros (r & -> & Hr). by exists r.
  - intros (r & Hr & <-). by exists r.
Qed.

Lemma names_toAdd (desired current : RecordSet) keys name :
  keyed desired -> range_of desired keys ->
  name ∈ names (addMissingRecords_toAdd keys desired current)
  <-> is_Some (desired !! name) /\ current !! name = None.
Proof.
  intros Hk Hkeys. rewrite elem_of_names.
  setoid_rewrite (elem_of_toAdd _ _ _ _ Hk Hkeys). split.
  - intros (r & [Hd Hc] & <-). eauto.
  - intros ([d Hd] & Hc). exists d. pose proof (Hk _ _ Hd) as Hname.
    simpl in Hname. by rewrite Hname.
Qed.

Lemma names_toRemove (desired current : RecordSet) keys name :
  keyed current -> range_of current keys ->
  name ∈ names (removeExtraRecords_toRemove keys desired current)
  <-> is_Some (current !! name) /\ desired !! name = None.
Proof.
  intros Hk Hkeys. rewrite elem_of_names.
  setoid_rewrite (elem_of_toRemove _ _ _ _ Hk Hkeys). split.
  - intros (r & [Hc Hd] & <-). eauto.
  - intros ([c Hc] & Hd). exists c. pose proof (Hk _ _ Hc) as Hname.
    simpl in Hname. by rewrite Hname.
Qed.

Lemma names_toUpdate (desired current : RecordSet) keys name :
  keyed desired -> range_of desired keys ->
  name ∈ names (updateExistingRecords_toUpdate keys desired current)
  <-> exists d c, desired !! name = Some d /\ current !! name = Some c
                  /\ ~ same_values d c.
Proof.
  intros Hk Hkeys. rewrite elem_of_names.
  setoid_rewrite (elem_of_toUpdate _ _ _ _ Hk Hkeys). split.
  - intros (r & (Hd & c & Hc & Hne) & <-). eauto.
  - intros (d & c & Hd & Hc & Hne). exists d.
    pose proof (Hk _ _ Hd) as Hname. simpl in Hname. rewrite Hname.
    eauto 6.
Qed.

Lemma same_values_dec (a b : DnsRecord) : same_values a b \/ ~ same_values a b.
Proof.
  destruct (records_update a b) eqn:Hup.
  - right. by apply records_update_spec.
  - left. destruct (decide ((list_to_set (Records a) : gset string)
                            = list_to_set (Records b))) as [Heq|Hne].
    + by apply same_values_sets.
    + exfalso. rewrite <- same_values_sets in Hne.
      apply records_update_spec in Hne. congruence.
Qed.

(** C6: no domain name is in two of [toAdd], [toRemove] and
    [toUpdate], and a domain name of the desired or of the current set
    is in exactly one of the four classes [toAdd], [toRemove],
    [toUpdate] and unchanged. *)
Theorem diff_partition (desired current : RecordSet) (order : RangeOrder) :
  keyed desired -> keyed current -> ranges desired current order ->
  let toAdd := addMissingRecords_toAdd (order_add order) desired current in
  let toRemove :=
    removeExtraRecords_toRemove (order_remove order) desired current in
  let toUpdate :=
    updateExistingRecords_toUpdate (order_update order) desired current in
  (forall name, ~ (name ∈ names toAdd /\ name ∈ names toRemove))
  /\ (forall name, ~ (name ∈ names toAdd /\ name ∈ names toUpdate))
  /\ (forall name, ~ (name ∈ names toRemove /\ name ∈ names toUpdate))
  /\ forall name,
      is_Some (desired !! name) \/ is_Some (current !! name) ->
      (name ∈ names toAdd /\ (name ∉ names toRemove)
       /\ (name ∉ names toUpdate) /\ ~ unchanged desired current name)
      \/ ((name ∉ names toAdd) /\ name ∈ names toRemove
          /\ (name ∉ names toUpdate) /\ ~ unchanged desired current name)
      \/ ((name ∉ names toAdd) /\ (name ∉ names toRemove)
          /\ name ∈ names toUpdate /\ ~ unchanged desired current name)
      \/ ((name ∉ names toAdd) /\ (name ∉ names toRemove)
          /\ (name ∉ names toUpdate) /\ unchanged desired current name).
Proof.
  intros Hd Hc (Hadd & Hremove & Hupdate). simpl.
  pose proof (fun name => names_toAdd desired current _ name Hd Hadd) as HA.
  pose proof (fun name => names_toRemove desired current _ name Hc Hremove)
    as HR.
  pose proof (fun name => names_toUpdate desired current _ name Hd Hupdate)
    as HU.
  unfold unchanged.
  split; [intros name; rewrite HA, HR; intros [[[? ?] ?] [_ ?]]; congruence|].
  split; [intros name; rewrite HA, HU;
          intros [[_ ?] (? & ? & ? & ? & ?)]; congruence|].
  split; [intros name; rewrite HR, HU;
          intros [[_ ?] (? & ? & ? & ? & ?)]; congruence|].
  intros name Hin. rewrite HA, HR, HU.
  destruct (desired !! name) as [d|] eqn:Hdn,
           (current !! name) as [c|] eqn:Hcn.
  - destruct (same_values_dec d c) as [Hsame|Hdiff].
    + right; right; right. split_and!; try by exists d, c.
      all: first [ by intros [_ ?]
                 | intros (d' & c' & ? & ? & ?); by simplify_eq ].
    + right; right; left. split_and!; try by exists d, c.
      all: first [ by intros [_ ?]
                 | intros (d' & c' & ? & ? & ?); by simplify_eq ].
  - left. split_and!; try done; try by exists d.
    all: first [ by intros [[? ?] _] | by intros (d' & c' & ? & ? & ?) ].
  - right; left. split_and!; try done; try by exists c.
    all: first [ by intros [[? ?] _] | by intros (d' & c' & ? & ? & ?) ].
  - destruct Hin as [[? ?]|[? ?]]; done.
Qed.

(** C7: the difference of a record set with itself is three empty
    lists. *)
Theorem diff_same_empty (S : RecordSet) (order : RangeOrder) :
  ranges S S order ->
  addMissingRecords_toAdd (order_add order) S S = []
  /\ removeExtraRecords_toRemove (order_remove order) S S = []
  /\ updateExistingRecords_toUpdate (order_update order) S S = [].
Proof.
  intros (Hadd & Hremove & Hupdate).
  assert (Hnone : forall (select : string -> option DnsRecord) keys,
             (forall key, key ∈ keys -> select key = None) ->
             omap select keys = []).
  { intros select keys Hsel. apply elem_of_nil_inv. intros r.
    rewrite list_elem_of_omap. intros (key & Hkey & Hr).
    rewrite (Hsel _ Hkey) in Hr. done. }
  rewrite toAdd_omap, toRemove_omap, toUpdate_omap.
  split_and!; apply Hnone; intros key Hkey.
  - apply (range_of_elem _ _ _ Hadd) in Hkey as [r Hr].
    unfold select_add. by rewrite Hr.
  - apply (range_of_elem _ _ _ Hremove) in Hkey as [r Hr].
    unfold select_remove. by rewrite Hr.
  - apply (range_of_elem _ _ _ Hupdate) in Hkey as [r Hr].
    unfold select_update. rewrite Hr.
    destruct (records_update (S !!! key) (S !!! key)) eqn:Hup; [|done].
    apply records_update_spec in Hup. by destruct Hup.
Qed.

(** ** The filter of the provider's records *)

Lemma substring_whole s : substring 0 (String.length s) s = s.
Proof. induction s as [|c s IH]; simpl; [done | by rewrite IH]. Qed.

Lemma substring_after p s :
  substring (String.length p) (String.length s) (p +:+ s) = s.
Proof. induction p as [|c p IH]; simpl; [apply substring_whole | done]. Qed.

Lemma string_length_append p s :
  String.length (p +:+ s) = (String.length p + String.length s)%nat.
Proof. induction p as [|c p IH]; simpl; [done | by rewrite IH]. Qed.

Lemma substring_split n k s :
  (n + k)%nat = String.length s ->
  substring 0 n s +:+ substring n k s = s.
Proof.
  revert s. induction n as [|n IH]; intros s Hlen; simpl in *.
  - subst k. destruct s; simpl; [done|]. by rewrite substring_whole.
  - destruct s as [|c s]; simpl in *; [done|].
    change (String c (substring 0 n s +:+ substring n k s) = String c s).
    f_equal. apply IH. lia.
Qed.

(** [strings.HasSuffix(s, suffix)] holds exactly when [s] ends with
    [suffix]. *)
Lemma HasSuffix_spec s suffix :
  HasSuffix s suffix = true <-> exists p, s = p +:+ suffix.
Proof.
  unfold HasSuffix. rewrite andb_true_iff, Nat.leb_le, String.eqb_eq. split.
  - intros [Hle Hsub].
    exists (substring 0 (String.length s - String.length suffix) s).
    pose proof (substring_split (String.length s - String.length suffix)
                  (String.length suffix) s) as Hsplit.
    rewrite Hsub in Hsplit. symmetry. apply Hsplit. lia.
  - intros [p ->]. rewrite string_length_append. split; [lia|].
    replace (String.length p + String.length suffix - String.length suffix)%nat
      with (String.length p) by lia.
    apply substring_after.
Qed.

(** C4, amended: the record set of [getProviderDnsRecords] holds under
    a domain name the last of the provider's records with this domain
    name, when the name as it is ends with the lower-cased
    [EnvironmentName + "." + RootDomainName], and nothing otherwise; no
    dot is asked for before the suffix and the domain name is not
    lower-cased.  When the provider lists every domain name once, the
    set holds exactly the provider's records whose domain name ends
    so, each under its domain name. *)
Theorem getProviderDnsRecords_filter :
  match GetRecords provider with
  | Err err => getProviderDnsRecords = Err err
  | Ok allRecords =>
      exists ourRecords : RecordSet,
        getProviderDnsRecords = Ok ourRecords
        /\ keyed ourRecords
        /\ (forall key,
               ourRecords !! key
               = last (stored_under code_suffix key allRecords))
        /\ (NoDup (names allRecords) ->
            forall r, ourRecords !! DomainName r = Some r
                      <-> r ∈ allRecords
                          /\ exists p, DomainName r = p +:+ code_suffix)
  end.
Proof.
  unfold getProviderDnsRecords.
  destruct (GetRecords provider) as [allRecords|err]; [|done].
  eexists. split; [reflexivity|].
  change (ToLower (Join [EnvironmentName; RootDomainName] "."))
    with code_suffix.
  split; [apply ourRecords_loop_keyed, map_Forall_empty|].
  assert (Hlookup : forall key,
             ourRecords_loop code_suffix ∅ allRecords !! key
             = last (stored_under code_suffix key allRecords)).
  { intros key. rewrite ourRecords_loop_lookup, lookup_empty.
    by destruct (last _). }
  split; [exact Hlookup|].
  intros Hnd r. rewrite Hlookup, <- HasSuffix_spec.
  unfold stored_under. clear Hlookup.
  induction allRecords as [|value allRecords IH] using rev_ind.
  { simpl. split; [done|]. intros [Hin _]. by apply elem_of_nil in Hin. }
  unfold names in Hnd. rewrite fmap_app in Hnd.
  apply NoDup_app in Hnd as (Hnd & Hnotin & _).
  rewrite List.filter_app, elem_of_app, list_elem_of_singleton. simpl.
  destruct (HasSuffix (DomainName value) code_suffix) eqn:Hsuf; simpl.
  - destruct (String.eqb_spec (DomainName value) (DomainName r)) as [Heq|Hne].
    + rewrite last_snoc. split.
      * intros [= ->]. auto.
      * intros [[Hin| ->] _]; [|done]. exfalso.
        apply (Hnotin (DomainName r)).
        -- apply list_elem_of_fmap. by exists r.
        -- rewrite <- Heq. simpl. by left.
    + rewrite app_nil_r, (IH Hnd). split; [intros [? ?]; auto|].
      intros [[Hin| ->] ?]; [done | by destruct Hne].
  - rewrite app_nil_r, (IH Hnd). split; [intros [? ?]; auto|].
    intros [[Hin| ->] ?]; [done | congruence].
Qed.

(** ** The sequence of a pass *)

(** C5: a pass reads the metadata first; when this read fails it
    returns the wrapped error and does nothing else.  It then reads the
    provider's records; when this read fails it returns the wrapped
    error and calls [updateRecords] for nothing.  Otherwise it runs the
    phases in the order add, remove, update, on the lists of the
    difference, and the first error a phase returns is returned at once
    under the name of the phase, with no later phase run. *)
Theorem UpdateDnsRecords_sequence m order answer :
  match GetContainers m with
  | Err err =>
      run answer (UpdateDnsRecords m order)
      = ([Read_metadata],
         Some ("Error reading external dns entries: " +:+ err))
  | Ok _ =>
      match GetRecords provider with
      | Err err =>
          run answer (UpdateDnsRecords m order)
          = ([Read_metadata; Read_provider],
             Some ("Provider error reading dns entries: " +:+ err))
      | Ok _ =>
          exists desired current,
            getMetadataDnsRecords m = (desired, None)
            /\ getProviderDnsRecords = Ok current
            /\ run answer (UpdateDnsRecords m order)
               = let '(applied, result) :=
                   phases_in_order answer
                     (with_records
                        [(Add,
                          addMissingRecords_toAdd (order_add order)
                            desired current);
                         (Remove,
                          removeExtraRecords_toRemove (order_remove order)
                            desired current);
                         (Update,
                          updateExistingRecords_toUpdate (order_update order)
                            desired current)]) in
                 (Read_metadata :: Read_provider :: applied, result)
      end
  end.
Proof.
  unfold UpdateDnsRecords. cbn [bind run].
  unfold getMetadataDnsRecords, getContainersDnsRecords.
  destruct (GetContainers m) as [containers|err]; [|done].
  cbn [bind run]. unfold getProviderDnsRecords.
  destruct (GetRecords provider) as [allRecords|err]; [|done].
  eexists _, _. split; [reflexivity|]. split; [reflexivity|].
  unfold addMissingRecords, removeExtraRecords, updateExistingRecords,
    with_records.
  simpl.
  destruct (length (addMissingRecords_toAdd _ _ _) =? 0)%nat;
    destruct (length (removeExtraRecords_toRemove _ _ _) =? 0)%nat;
    destruct (length (updateExistingRecords_toUpdate _ _ _) =? 0)%nat;
    simpl;
    repeat (match goal with
            | |- context [answer ?op ?l] => destruct (answer op l); simpl
            end);
    reflexivity.
Qed.

(** What [phases_in_order] runs is a beginning of the list of phases:
    the whole list when no phase fails, up to the first failing phase
    otherwise. *)
Lemma phases_in_order_calls answer phases :
  let '(applied, result) := phases_in_order answer phases in
  exists ran rest,
    phases = ran ++ rest
    /\ applied = (fun phase => Applied phase.1 phase.2) <$> ran
    /\ match result with
       | None =>
           rest = []
           /\ Forall (fun phase => answer phase.1 phase.2 = None) ran
       | Some e =>
           exists before op toChange err,
             ran = before ++ [(op, toChange)]
             /\ Forall (fun phase => answer phase.1 phase.2 = None) before
             /\ answer op toChange = Some err
             /\ e = phase_name op +:+ err
       end.
Proof.
  induction phases as [|[op toChange] phases IH]; simpl.
  - exists [], []. auto.
  - destruct (answer op toChange) as [err|] eqn:Hans.
    + exists [(op, toChange)], phases. split; [done|]. split; [done|].
      exists [], op, toChange, err. auto.
    + destruct (phases_in_order answer phases) as [applied result].
      destruct IH as (ran & rest & -> & -> & IH).
      exists ((op, toChange) :: ran), rest. split; [done|]. split; [done|].
      destruct result as [e|].
      * destruct IH as (before & op' & toChange' & err & -> & Hb & Ha & ->).
        exists ((op, toChange) :: before), op', toChange', err.
        split_and!; try done. by constructor.
      * destruct IH as [-> Hall]. split; [done|]. by constructor.
Qed.

(** ** The value [updateRecords] returns *)

Lemma step_returned op a s s' :
  step op a s = Some s' ->
  returned s' = returned s \/ returned s' = Some None.
Proof.
  unfold step. intros Hstep.
  destruct a; repeat case_match; simplify_eq; simpl; auto.
Qed.

(** Whatever the schedule and the answers of the provider, a call of
    [updateRecords] that has returned has returned [nil]. *)
Lemma updateRecords_returns_nil toChange op history schedule :
  match steps op schedule (updateRecords_init toChange history) with
  | Some s => returned s = None \/ returned s = Some None
  | None => True
  end.
Proof.
  assert (Hgen : forall s,
             returned s = None \/ returned s = Some None ->
             match steps op schedule s with
             | Some s' => returned s' = None \/ returned s' = Some None
             | None => True
             end).
  { induction schedule as [|a schedule IH]; intros s Hs; simpl; [done|].
    destruct (step op a s) as [s'|] eqn:Hstep; [|done].
    apply IH.
    destruct (step_returned _ _ _ _ Hstep) as [Heq|Heq]; rewrite Heq; auto. }
  apply Hgen. by left.
Qed.

Lemma step_stuck_invariant op n a s s' :
  (forall history value, handle op history value <> None) ->
  (2 <= n)%nat ->
  stuck_invariant n s -> step op a s = Some s' -> stuck_invariant n s'.
Proof.
  unfold stuck_invariant, step. intros Hfail Hn (Hwg & Hret & Hcons) Hstep.
  destruct a.
  - destruct (consumer s); try done.
    destruct (blocked s !! i) as [value|] eqn:Hi; [|done].
    simplify_eq; simpl. apply lookup_lt_Some in Hi.
    rewrite length_delete by eauto using lookup_lt_is_Some_2.
    split_and!; [lia | done | lia].
  - destruct (sent s) as [|k] eqn:Hsent; [done|].
    simplify_eq; simpl. split_and!; [lia | done | done].
  - destruct (consumer s) as [| value |] eqn:Hc; try done.
    simplify_eq; simpl. split_and!; [done | done |].
    destruct (handle op (calls s) value) eqn:Hh; [done|].
    by destruct (Hfail (calls s) value).
  - rewrite Hret in Hstep. destruct (wg s) eqn:Hw; [|done].
    destruct (consumer s); lia.
Qed.

(** When every provider call fails, a call of [updateRecords] with two
    records or more does not return: the consumer exits at the first
    record and the other senders stay blocked. *)
Lemma updateRecords_does_not_return toChange op history schedule :
  (forall history value, handle op history value <> None) ->
  (2 <= length toChange)%nat ->
  match steps op schedule (updateRecords_init toChange history) with
  | Some s => returned s = None
  | None => True
  end.
Proof.
  intros Hfail Hlen.
  assert (Hgen : forall s,
             stuck_invariant (length toChange) s ->
             match steps op schedule s with
             | Some s' => stuck_invariant (length toChange) s'
             | None => True
             end).
  { induction schedule as [|a schedule IH]; intros s Hs; simpl; [done|].
    destruct (step op a s) as [s'|] eqn:Hstep; [|done].
    apply IH. by eapply step_stuck_invariant. }
  specialize (Hgen (updateRecords_init toChange history)).
  destruct (steps op schedule _) as [s|]; [|done].
  apply Hgen. unfold stuck_invariant; simpl. split_and!; [lia | done | done].
Qed.

(** ** Further properties of the desired record set *)

Lemma container_step_contribution m serviceName stackName
    (dnsEntries : RecordSet) container :
  container_step m serviceName stackName dnsEntries container
  = match contribution m serviceName stackName container with
    | Some r => <[DomainName r := r]> dnsEntries
    | None => dnsEntries
    end.
Proof.
  unfold container_step, contribution.
  repeat case_match; try done.
  by rewrite addToDnsEntries_insert.
Qed.

Lemma container_loop_lookup m serviceName stackName key containers :
  forall dnsEntries : RecordSet,
    foldl (container_step m serviceName stackName) dnsEntries containers
      !! key
    = match
        last (under key (omap (contribution m serviceName stackName)
                           containers))
      with
      | Some r => Some r
      | None => dnsEntries !! key
      end.
Proof.
  unfold under.
  induction containers as [|c containers IH] using rev_ind;
    intros dnsEntries; [done|].
  rewrite foldl_app, omap_app, List.filter_app. simpl.
  rewrite container_step_contribution.
  destruct (contribution m serviceName stackName c) as [r|]; simpl.
  - destruct (String.eqb_spec (DomainName r) key) as [->|Hne].
    + by rewrite last_snoc, lookup_insert_eq.
    + rewrite app_nil_r, lookup_insert_ne by done. apply IH.
  - rewrite app_nil_r. apply IH.
Qed.

(** The map [getContainersDnsRecords] leaves holds, under a domain
    name, the record of the last container of the list that gets past
    the [continue]s with this domain name, and what the map held before
    when there is no such container; a failed read of the containers
    leaves the map as it was. *)
Theorem getContainersDnsRecords_last_instance
    m (dnsEntries : RecordSet) serviceName stackName :
  match GetContainers m with
  | Ok containers =>
      forall key,
        (getContainersDnsRecords m dnsEntries serviceName stackName).1 !! key
        = match
            last (under key (omap (contribution m serviceName stackName)
                               containers))
          with
          | Some r => Some r
          | None => dnsEntries !! key
          end
  | Err _ =>
      (getContainersDnsRecords m dnsEntries serviceName stackName).1
      = dnsEntries
  end.
Proof.
  unfold getContainersDnsRecords.
  destruct (GetContainers m) as [containers|err]; [|done].
  intros key. apply container_loop_lookup.
Qed.

Lemma contribution_service m serviceName stackName container r :
  serviceName <> "" ->
  contribution m serviceName stackName container = Some r ->
  DomainName r
  = ToLower (Join [serviceName; stackName; EnvironmentName; RootDomainName]
               ".").
Proof.
  unfold contribution. intros Hname Hr.
  destruct (String.length serviceName =? 0)%nat eqn:Hlen.
  { apply Nat.eqb_eq in Hlen. by destruct serviceName. }
  simpl in Hr.
  destruct (String.length (ServiceName container) =? 0)%nat; [done|].
  destruct (String.eqb_spec serviceName (ServiceName container)) as [<-|];
    [|done].
  destruct (String.eqb_spec stackName (StackName container)) as [<-|];
    [|done].
  simpl in Hr. repeat case_match; try done. by injection Hr as <-.
Qed.

(** Called with a service name, [getContainersDnsRecords] writes under
    one domain name only, that of the service and the stack it is
    given: every other entry of the map is as before. *)
Theorem getContainersDnsRecords_one_service
    m (dnsEntries : RecordSet) serviceName stackName key :
  serviceName <> "" ->
  key <> ToLower (Join [serviceName; stackName; EnvironmentName;
                        RootDomainName] ".") ->
  (getContainersDnsRecords m dnsEntries serviceName stackName).1 !! key
  = dnsEntries !! key.
Proof.
  intros Hname Hkey. unfold getContainersDnsRecords.
  destruct (GetContainers m) as [containers|err]; [|done].
  simpl. rewrite container_loop_lookup.
  destruct (last _) as [r|] eqn:Hlast; [|done].
  exfalso. apply last_Some_elem_of in Hlast.
  unfold under in Hlast.
  apply list_elem_of_In, List.filter_In in Hlast as [Hin Heq].
  apply list_elem_of_In, list_elem_of_omap in Hin as (c & _ & Hc).
  apply String.eqb_eq in Heq.
  apply (contribution_service _ _ _ _ _ Hname) in Hc. congruence.
Qed.

(** ** The desired records and the filter of the provider's records *)









Lemma omap_all_None {A B : Type} (select : A -> option B) (l : list A) :
  (forall a, a ∈ l -> select a = None) -> omap select l = [].
Proof.
  intros Hsel. apply elem_of_nil_inv. intros b.
  rewrite list_elem_of_omap. intros (a & Ha & Hb).
  rewrite (Hsel _ Ha) in Hb. done.
Qed.

Lemma omap_all_Some {A B : Type} (select : A -> option B) (f : A -> B)
    (l : list A) :
  (forall a, a ∈ l -> select a = Some (f a)) -> omap select l = f <$> l.
Proof.
  induction l as [|a l IH]; intros Hsel; [done|]. simpl.
  rewrite (Hsel a) by by left. simpl. f_equal. apply IH.
  intros a' Ha'. apply Hsel. by right.
Qed.

Lemma values_by_keys (m : RecordSet) keys :
  range_of m keys -> (fun key => m !!! key) <$> keys ≡ₚ (map_to_list m).*2.
Proof.
  unfold range_of. intros ->. rewrite <- list_fmap_compose.
  assert (Heq : ((fun key => m !!! key) ∘ fst) <$> map_to_list m
                = (map_to_list m).*2); [|by rewrite Heq].
  apply list_fmap_ext. intros i [key r] Hi. simpl.
  apply lookup_total_correct, elem_of_map_to_list, list_elem_of_lookup.
  eauto.
Qed.

Lemma range_of_empty keys : range_of (∅ : RecordSet) keys -> keys = [].
Proof.
  unfold range_of. rewrite map_to_list_empty. simpl.
  intros H. by apply Permutation_nil_r in H.
Qed.

(** ** The difference at its edges *)

(** With no desired record, every record of the provider's set is to
    be removed, and nothing is to be added or updated. *)
Theorem diff_nothing_desired (current : RecordSet) (order : RangeOrder) :
  ranges ∅ current order ->
  addMissingRecords_toAdd (order_add order) ∅ current = []
  /\ removeExtraRecords_toRemove (order_remove order) ∅ current
     ≡ₚ (map_to_list current).*2
  /\ updateExistingRecords_toUpdate (order_update order) ∅ current = [].
Proof.
  intros (Hadd%range_of_empty & Hremove & Hupdate%range_of_empty).
  rewrite Hadd, Hupdate. split; [done|]. split; [|done].
  rewrite toRemove_omap, <- (values_by_keys _ _ Hremove).
  rewrite (omap_all_Some _ (fun key => current !!! key)); [done|].
  intros key _. unfold select_remove. by rewrite lookup_empty.
Qed.

(** With an empty provider's set, every desired record is to be added,
    and nothing is to be removed or updated. *)
Theorem diff_nothing_current (desired : RecordSet) (order : RangeOrder) :
  ranges desired ∅ order ->
  addMissingRecords_toAdd (order_add order) desired ∅
  ≡ₚ (map_to_list desired).*2
  /\ removeExtraRecords_toRemove (order_remove order) desired ∅ = []
  /\ updateExistingRecords_toUpdate (order_update order) desired ∅ = [].
Proof.
  intros (Hadd & Hremove%range_of_empty & Hupdate).
  rewrite Hremove. split; [|split; [done|]].
  - rewrite toAdd_omap, <- (values_by_keys _ _ Hadd).
    rewrite (omap_all_Some _ (fun key => desired !!! key)); [done|].
    intros key _. unfold select_add. by rewrite lookup_empty.
  - rewrite toUpdate_omap. apply omap_all_None. intros key _.
    unfold select_update. by rewrite lookup_empty.
Qed.

(** ** A pass with nothing to do *)


(** ** The provider calls of [updateRecords] *)

Lemma all_succeed_snoc op history values value :
  all_succeed op history (values ++ [value]) = true
  <-> all_succeed op history values = true
      /\ handle op (history ++ (pair op <$> values)) value = None.
Proof.
  revert history. induction values as [|v values IH]; intros history; simpl.
  - rewrite app_nil_r. destruct (handle op history value); split;
      try done; by intros [_ ?].
  - destruct (handle op history v); [split; [done | by intros [? _]]|].
    rewrite IH. by rewrite <- app_assoc.
Qed.

Lemma updateRecords_init_invariant toChange op history :
  updateRecords_invariant toChange op history
    (updateRecords_init toChange history).
Proof.
  exists []. simpl. rewrite !app_nil_r. split_and!; try done; lia.
Qed.

Lemma step_invariant toChange op history a s s' :
  updateRecords_invariant toChange op history s ->
  step op a s = Some s' ->
  updateRecords_invariant toChange op history s'.
Proof.
  intros (handled & Hcalls & Hperm & Hwg & Hret & Hcons) Hstep.
  unfold step, held in *. destruct a.
  - destruct (consumer s) eqn:Hc; try done.
    destruct (blocked s !! i) as [value|] eqn:Hi; [|done].
    injection Hstep as <-. exists handled. unfold held. simpl.
    split_and!; try done.
    + etrans; [exact Hperm|]. simpl.
      etrans; [apply Permutation_app_tail, (delete_Permutation _ _ _ Hi)|].
      simpl. apply Permutation_middle.
    + apply lookup_lt_Some in Hi as Hlt.
      rewrite length_delete by eauto. lia.
  - destruct (sent s) as [|n] eqn:Hsent; [done|].
    injection Hstep as <-. exists handled. unfold held. simpl.
    split_and!; try done; [lia|]. intros Hr. specialize (Hret Hr). lia.
  - destruct (consumer s) as [|value|] eqn:Hc; try done.
    injection Hstep as <-. exists (handled ++ [value]).
    assert (Hheld : toChange ≡ₚ blocked s ++ [] ++ handled ++ [value]).
    { etrans; [exact Hperm|]. simpl. apply Permutation_app_head.
      apply (Permutation_app_comm [value] handled). }
    rewrite Hcalls in *. unfold held. simpl.
    destruct (handle op (history ++ (pair op <$> handled)) value)
      as [err|] eqn:Hh.
    + split; [by rewrite fmap_app, app_assoc|].
      split; [exact Hheld|]. split; [done|]. split; [done|].
      by exists handled, value.
    + split; [by rewrite fmap_app, app_assoc|].
      split; [exact Hheld|]. split; [done|]. split; [done|].
      by apply all_succeed_snoc.
  - destruct (returned s) eqn:Hr; [done|].
    destruct (wg s) eqn:Hw; [|done].
    injection Hstep as <-. exists handled. unfold held. simpl.
    split_and!; done.
Qed.

Lemma steps_invariant toChange op history schedule :
  forall s s',
    updateRecords_invariant toChange op history s ->
    steps op schedule s = Some s' ->
    updateRecords_invariant toChange op history s'.
Proof.
  induction schedule as [|a schedule IH]; intros s s' Hs Hsteps; simpl in *.
  - by injection Hsteps as <-.
  - destruct (step op a s) as [s1|] eqn:Hstep; [|done].
    eapply IH; [|done]. by eapply step_invariant.
Qed.

(** The provider calls a call of [updateRecords] has made are calls of
    the operation it is given, each for a record of [toChange], and no
    more calls for a record than [toChange] holds it: the records are
    those still with their senders, the one the consumer holds, and
    those of the calls made. *)
Theorem updateRecords_calls_once toChange op history schedule s :
  steps op schedule (updateRecords_init toChange history) = Some s ->
  exists handled,
    calls s = history ++ (pair op <$> handled)
    /\ toChange ≡ₚ blocked s ++ held s ++ handled.
Proof.
  intros Hsteps.
  destruct (steps_invariant toChange op history schedule _ _
              (updateRecords_init_invariant _ _ _) Hsteps)
    as (handled & Hcalls & Hperm & _).
  by exists handled.
Qed.

(** Every provider call a call of [updateRecords] has made but the last
    has succeeded; the last has failed exactly when the consumer has
    exited, and the error of the consumer is then the error of this
    call. *)
Theorem updateRecords_stops_at_failure toChange op history schedule s :
  steps op schedule (updateRecords_init toChange history) = Some s ->
  exists handled,
    calls s = history ++ (pair op <$> handled)
    /\ match consumer s with
       | Exited err =>
           exists before value,
             handled = before ++ [value]
             /\ all_succeed op history before = true
             /\ handle op (history ++ (pair op <$> before)) value = Some err
       | _ => all_succeed op history handled = true
       end.
Proof.
  intros Hsteps.
  destruct (steps_invariant toChange op history schedule _ _
              (updateRecords_init_invariant _ _ _) Hsteps)
    as (handled & Hcalls & _ & _ & _ & Hcons).
  by exists handled.
Qed.

(** When a call of [updateRecords] has returned, the consumer has
    received every record, and the provider call has been made for
    every record but the one the consumer may still hold: the return
    does not wait for the last provider call. *)
Theorem updateRecords_returned_received toChange op history schedule s :
  steps op schedule (updateRecords_init toChange history) = Some s ->
  returned s <> None ->
  blocked s = [] /\ sent s = 0%nat
  /\ exists handled,
      calls s = history ++ (pair op <$> handled)
      /\ toChange ≡ₚ held s ++ handled.
Proof.
  intros Hsteps Hr.
  destruct (steps_invariant toChange op history schedule _ _
              (updateRecords_init_invariant _ _ _) Hsteps)
    as (handled & Hcalls & Hperm & Hwg & Hret & _).
  specialize (Hret Hr). rewrite Hret in Hwg.
  assert (Hb : blocked s = []) by (apply length_zero_iff_nil; lia).
  rewrite Hb in *. simpl in *.
  split; [done|]. split; [lia|]. by exists handled.
Qed.

Lemma step_stuck op a s s' : stuck s -> step op a s = Some s' -> stuck s'.
Proof.
  unfold stuck, step. intros ([err Herr] & Hb & Hwg & Hr) Hstep.
  rewrite Herr in Hstep. destruct a; try done.
  - destruct (sent s) as [|n] eqn:Hsent; [done|].
    injection Hstep as <-. simpl. split_and!; eauto. lia.
  - rewrite Hr in Hstep. destruct (wg s) eqn:Hw; [|done].
    destruct (blocked s); [done | simpl in Hwg; lia].
Qed.

Lemma steps_stuck op schedule :
  forall s s', stuck s -> steps op schedule s = Some s' -> stuck s'.
Proof.
  induction schedule as [|a schedule IH]; intros s s' Hs Hsteps; simpl in *.
  - by injection Hsteps as <-.
  - destruct (step op a s) as [s1|] eqn:Hstep; [|done].
    eapply IH; [|done]. by eapply step_stuck.
Qed.

(** Once the consumer has exited on a failed provider call while a
    sender is still blocked, the call of [updateRecords] has not
    returned and returns under no schedule. *)
Theorem updateRecords_stuck_after_failure
    toChange op history schedule s err schedule' s' :
  steps op schedule (updateRecords_init toChange history) = Some s ->
  consumer s = Exited err ->
  blocked s <> [] ->
  steps op schedule' s = Some s' ->
  returned s = None /\ returned s' = None.
Proof.
  intros Hsteps Herr Hb Hsteps'.
  destruct (steps_invariant toChange op history schedule _ _
              (updateRecords_init_invariant _ _ _) Hsteps)
    as (handled & _ & _ & Hwg & Hret & _).
  assert (Hr : returned s = None).
  { destruct (returned s) eqn:Hr; [|done].
    assert (Hz : wg s = 0%nat) by by apply Hret.
    destruct (blocked s); [done | simpl in Hwg; lia]. }
  split; [done|].
  assert (Hstuck : stuck s) by (unfold stuck; eauto).
  by destruct (steps_stuck op schedule' _ _ Hstuck Hsteps') as (_ & _ & _ & ?).
Qed.

Lemma steps_app op schedule1 schedule2 s :
  steps op (schedule1 ++ schedule2) s
  = match steps op schedule1 s with
    | Some s1 => steps op schedule2 s1
    | None => None
    end.
Proof.
  revert s. induction schedule1 as [|a schedule1 IH]; intros s; simpl;
    [done|].
  by destruct (step op a s).
Qed.

Lemma in_turn_steps op values :
  forall history,
    all_succeed op history values = true ->
    steps op (in_turn (length values))
      (mkApply values 0 (length values) Receiving history None)
    = Some (mkApply [] 0 0 Receiving (history ++ (pair op <$> values))
              (Some None)).
Proof.
  unfold in_turn.
  induction values as [|value values IH]; intros history Hall; simpl in *.
  - by rewrite app_nil_r.
  - destruct (handle op history value) eqn:Hh; [done|].
    rewrite Nat.sub_0_r. rewrite (IH _ Hall).
    by rewrite <- app_assoc.
Qed.

(** When the provider calls for the records of [toChange], made in the
    order of the list, all succeed, the schedule that lets the records
    through one after the other makes these calls in this order and the
    call of [updateRecords] returns [nil], with no goroutine left but
    the consumer waiting on the channel. *)
Theorem updateRecords_in_turn toChange op history :
  all_succeed op history toChange = true ->
  steps op (in_turn (length toChange)) (updateRecords_init toChange history)
  = Some (mkApply [] 0 0 Receiving (history ++ (pair op <$> toChange))
            (Some None)).
Proof. intros Hall. by apply in_turn_steps. Qed.

(** ** A pass without containers *)

(** When the metadata lists no container and the provider's record set
    is not empty, a pass makes one call of [updateRecords]: the removal
    of every record of the provider's set; its result is the wrapped
    error of this call, if any. *)
Theorem UpdateDnsRecords_no_containers m order answer (current : RecordSet) :
  GetContainers m = Ok [] ->
  getProviderDnsRecords = Ok current ->
  current <> ∅ ->
  ranges ∅ current order ->
  exists toRemove,
    toRemove ≡ₚ (map_to_list current).*2
    /\ run answer (UpdateDnsRecords m order)
       = ([Read_metadata; Read_provider; Applied Remove toRemove],
          match answer Remove toRemove with
          | Some err => Some ("Failed to remove extra records: " +:+ err)
          | None => None
          end).
Proof.
  intros Hc Hprov Hne (Hadd%range_of_empty & Hremove & Hupdate%range_of_empty).
  exists ((fun key => current !!! key) <$> order_remove order).
  split; [by apply values_by_keys|].
  unfold UpdateDnsRecords. cbn [bind run].
  unfold getMetadataDnsRecords, getContainersDnsRecords. rewrite Hc.
  cbn [bind run foldl]. rewrite Hprov. cbn [bind run].
  unfold addMissingRecords, removeExtraRecords, updateExistingRecords.
  rewrite Hadd, Hupdate. cbn [addMissingRecords_toAdd foldl length Nat.eqb].
  cbn [bind run].
  rewrite toRemove_omap.
  rewrite (omap_all_Some _ (fun key => current !!! key));
    [|intros key _; unfold select_remove; by rewrite lookup_empty].
  destruct (order_remove order) as [|key keys] eqn:Horder.
  { destruct Hne. apply map_to_list_empty_iff.
    unfold range_of in Hremove. symmetry in Hremove.
    apply Permutation_nil_r in Hremove.
    by apply fmap_nil_inv in Hremove. }
  cbn [fmap list_fmap length Nat.eqb bind run].
  destruct (answer Remove _); by cbn.
Qed.

End ExternalDns.

(** ** The pass on concrete inputs *)

(** Keyed-ness and key orders of concrete maps, by computation. *)
Lemma keyed_by_list (m : RecordSet) :
  Forall (fun kr => DomainName kr.2 = kr.1) (map_to_list m) -> keyed m.
Proof.
  intros Hall key r Hr. apply elem_of_map_to_list in Hr.
  rewrite Forall_forall in Hall. apply (Hall (key, r) Hr).
Defined.

Lemma ex_desired_keyed : keyed ex_desired.
Proof. apply keyed_by_list. vm_compute. repeat constructor. Defined.

Lemma ex_current_keyed : keyed ex_current.
Proof. apply keyed_by_list. vm_compute. repeat constructor. Defined.

Lemma ex_ranges : ranges ex_desired ex_current ex_order.
Proof.
  unfold ranges, range_of. split_and!; vm_compute; reflexivity.
Defined.

Lemma ex_ranges_same : ranges ex_current ex_current
                         (mkRangeOrder [ex_web; ex_old] [ex_old; ex_web]
                            [ex_web; ex_old]).
Proof.
  unfold ranges, range_of.
  split_and!; vm_compute; try reflexivity; apply perm_swap.
Defined.

(** The scenario of the spec (section 8): nothing to add, the old
    record to remove, the desired record to update. *)
Example diff_scenario :
  addMissingRecords_toAdd (order_add ex_order) ex_desired ex_current = []
  /\ removeExtraRecords_toRemove (order_remove ex_order) ex_desired ex_current
     = [ex_record ex_old "10.0.0.9"]
  /\ updateExistingRecords_toUpdate (order_update ex_order) ex_desired
       ex_current
     = [ex_record ex_web "10.0.0.1"].
Proof. vm_compute. done. Qed.

(** The comparison of the spec (section 8): the order of the values
    does not matter, a missing value does. *)
Example records_update_scenario :
  records_update (mkDnsRecord ex_web ["A"; "B"] "A" 300)
    (mkDnsRecord ex_web ["B"; "A"] "A" 300) = false
  /\ records_update (mkDnsRecord ex_web ["A"; "B"] "A" 300)
       (mkDnsRecord ex_web ["A"] "A" 300) = true.
Proof. vm_compute. done. Qed.

(** A pass on the scenario whose remove phase fails: the two reads, no
    call for the empty list of additions, the failing call, no update. *)
Example UpdateDnsRecords_scenario :
  run "env" "example.com" ToLowerASCII
    (ex_failing [ex_record ex_web "10.0.0.2"; ex_record ex_old "10.0.0.9"])
    (fun op _ => match op with Remove => Some "boom" | _ => None end)
    (UpdateDnsRecords ex_first ex_order)
  = ([Read_metadata; Read_provider;
      Applied Remove [ex_record ex_old "10.0.0.9"]],
     Some "Failed to remove extra records: boom").
Proof. vm_compute. done. Qed.

(** C1: two instances of one service are read, each of which alone
    gives the domain name [web.stack.env.example.com] with its own IP;
    the record built from both holds the IP of the second instance
    only, because [addToDnsEntries] stores the values of the new entry
    where the domain name is already in the map. *)
Theorem getMetadataDnsRecords_keeps_last_ip :
  (getMetadataDnsRecords "env" "example.com" ToLowerASCII ex_first).1 !! ex_web
  = Some (mkDnsRecord ex_web ["10.0.0.1"] "A" 300)
  /\ (getMetadataDnsRecords "env" "example.com" ToLowerASCII ex_second).1
       !! ex_web
     = Some (mkDnsRecord ex_web ["10.0.0.2"] "A" 300)
  /\ getMetadataDnsRecords "env" "example.com" ToLowerASCII ex_both
     = ({[ ex_web := mkDnsRecord ex_web ["10.0.0.2"] "A" 300 ]}, None)
  /\ addToDnsEntries (mkDnsRecord ex_web ["10.0.0.2"] "A" 300)
       {[ ex_web := mkDnsRecord ex_web ["10.0.0.1"] "A" 300 ]}
     = {[ ex_web := mkDnsRecord ex_web ["10.0.0.2"] "A" 300 ]}.
Proof. vm_compute. done. Qed.

(** C2: one record whose provider call fails.  The consumer builds the
    error of the failed call, but the call of [updateRecords] returns
    [nil]; and whatever the schedule, a call that has returned has
    returned [nil]. *)
Theorem updateRecords_loses_error :
  steps (ex_failing []) Add [Receive 0%nat; Done; Handle; Wait]
    (updateRecords_init [ex_record ex_web "10.0.0.1"] [])
  = Some
      (mkApply [] 0 0
         (Exited
            "Failed to add DNS record {web.stack.env.example.com [10.0.0.1] A 300}: boom")
         [(Add, ex_record ex_web "10.0.0.1")]
         (Some None))
  /\ forall schedule,
      match
        steps (ex_failing []) Add schedule
          (updateRecords_init [ex_record ex_web "10.0.0.1"] [])
      with
      | Some s => returned s = None \/ returned s = Some None
      | None => True
      end.
Proof.
  split; [vm_compute; done|].
  intros schedule. apply updateRecords_returns_nil.
Qed.

(** With two records whose provider calls fail, the call of
    [updateRecords] returns under no schedule. *)
Example updateRecords_blocks schedule :
  match
    steps (ex_failing []) Add schedule
      (updateRecords_init
         [ex_record ex_web "10.0.0.1"; ex_record ex_old "10.0.0.9"] [])
  with
  | Some s => returned s = None
  | None => True
  end.
Proof.
  apply updateRecords_does_not_return; [done | simpl; lia].
Qed.

(** C4, as the spec states it, fails: the record of
    [xenv.example.com], which does not end with [.env.example.com], is
    kept, and the record of [WEB.STACK.ENV.EXAMPLE.COM], which ends with
    it when case is ignored, is not. *)
Lemma getProviderDnsRecords_not_spec_filter :
  ~ spec_filter "env" "example.com" ToLowerASCII (ex_failing ex_foreign).
Proof.
  unfold spec_filter. simpl. intros Hspec.
  destruct (Hspec (ex_record "xenv.example.com" "10.0.0.5")) as [Hkept _].
  destruct Hkept as [_ Howned]; [vm_compute; done|].
  vm_compute in Howned. discriminate.
Qed.

Example getProviderDnsRecords_drops_upper_case :
  getProviderDnsRecords "env" "example.com" ToLowerASCII (ex_failing ex_foreign)
  = Ok {[ "xenv.example.com" := ex_record "xenv.example.com" "10.0.0.5" ]}
  /\ spec_owned "env" "example.com" ToLowerASCII "xenv.example.com" = false
  /\ spec_owned "env" "example.com" ToLowerASCII "WEB.STACK.ENV.EXAMPLE.COM"
     = true.
Proof. vm_compute. done. Qed.

(** The amended statement on the provider records of the scenario. *)
Lemma getProviderDnsRecords_filter_witness :
  NoDup (names [ex_record ex_web "10.0.0.2";
                ex_record "xenv.example.com" "10.0.0.5"])
  /\ exists ourRecords : RecordSet,
      getProviderDnsRecords "env" "example.com" ToLowerASCII
        (ex_failing [ex_record ex_web "10.0.0.2";
                     ex_record "xenv.example.com" "10.0.0.5"])
      = Ok ourRecords
      /\ forall r, ourRecords !! DomainName r = Some r
                   <-> r ∈ [ex_record ex_web "10.0.0.2";
                            ex_record "xenv.example.com" "10.0.0.5"]
                       /\ exists p, DomainName r
                                    = p +:+ code_suffix "env" "example.com"
                                              ToLowerASCII.
Proof.
  assert (Hnd : NoDup (names [ex_record ex_web "10.0.0.2";
                              ex_record "xenv.example.com" "10.0.0.5"])).
  { apply (bool_decide_unpack _). vm_compute. reflexivity. }
  split; [exact Hnd|].
  destruct (getProviderDnsRecords_filter "env" "example.com" ToLowerASCII
              (ex_failing [ex_record ex_web "10.0.0.2";
                           ex_record "xenv.example.com" "10.0.0.5"]))
    as (ourRecords & Hget & _ & _ & Hexact).
  exists ourRecords. split; [exact Hget|]. exact (Hexact Hnd).
Defined.

(** The characterisation of the three lists on the scenario. *)
Lemma diff_lists_witness :
  keyed ex_desired /\ keyed ex_current /\ ranges ex_desired ex_current ex_order
  /\ forall r,
      r ∈ removeExtraRecords_toRemove (order_remove ex_order) ex_desired
            ex_current
      <-> ex_current !! DomainName r = Some r
          /\ ex_desired !! DomainName r = None.
Proof.
  split_and!; [exact ex_desired_keyed | exact ex_current_keyed
               | exact ex_ranges |].
  apply (diff_lists ex_desired ex_current ex_order
           ex_desired_keyed ex_current_keyed ex_ranges).
Defined.

(** The partition on the scenario. *)
Lemma diff_partition_witness :
  keyed ex_desired /\ keyed ex_current /\ ranges ex_desired ex_current ex_order
  /\ forall name,
      ~ (name ∈ names (addMissingRecords_toAdd (order_add ex_order)
                         ex_desired ex_current)
         /\ name ∈ names (removeExtraRecords_toRemove (order_remove ex_order)
                            ex_desired ex_current)).
Proof.
  split_and!; [exact ex_desired_keyed | exact ex_current_keyed
               | exact ex_ranges |].
  apply (diff_partition ex_desired ex_current ex_order
           ex_desired_keyed ex_current_keyed ex_ranges).
Defined.

(** The difference of the provider's set of the scenario with itself. *)
Lemma diff_same_empty_witness :
  ranges ex_current ex_current
    (mkRangeOrder [ex_web; ex_old] [ex_old; ex_web] [ex_web; ex_old])
  /\ addMissingRecords_toAdd [ex_web; ex_old] ex_current ex_current = []
  /\ removeExtraRecords_toRemove [ex_old; ex_web] ex_current ex_current = []
  /\ updateExistingRecords_toUpdate [ex_web; ex_old] ex_current ex_current
     = [].
Proof.
  split; [exact ex_ranges_same|].
  apply (diff_same_empty ex_current _ ex_ranges_same).
Defined.

(** An instance without service name and an instance on an unknown
    host leave the map as it is. *)
Lemma getContainersDnsRecords_skips_instances_witness :
  (ServiceName ex_unnamed = ""
   \/ exists err, GetHost ex_both (HostUUID ex_unnamed) = Err err)
  /\ container_step "env" "example.com" ToLowerASCII ex_both "" "" ex_desired
       ex_unnamed
     = ex_desired
  /\ (ServiceName ex_lost = ""
      \/ exists err, GetHost ex_both (HostUUID ex_lost) = Err err)
  /\ container_step "env" "example.com" ToLowerASCII ex_both "" "" ex_desired
       ex_lost
     = ex_desired.
Proof.
  assert (Hunnamed : ServiceName ex_unnamed = ""
                     \/ exists err,
                         GetHost ex_both (HostUUID ex_unnamed) = Err err).
  { left. reflexivity. }
  assert (Hlost : ServiceName ex_lost = ""
                  \/ exists err, GetHost ex_both (HostUUID ex_lost) = Err err).
  { right. exists "host not found". reflexivity. }
  destruct (getContainersDnsRecords_skips_instances "env" "example.com"
              ToLowerASCII ex_both ex_desired "" "") as [_ Hskip].
  split_and!; [exact Hunnamed | exact (Hskip _ _ Hunnamed)
               | exact Hlost | exact (Hskip _ _ Hlost)].
Defined.


(** ** Further properties on concrete inputs *)


(** Asked for the service [web] of the stack [stack], the builder
    leaves the record of another name alone. *)
Lemma getContainersDnsRecords_one_service_witness :
  "web" <> ""
  /\ ex_old <> ToLowerASCII (Join ["web"; "stack"; "env"; "example.com"] ".")
  /\ (getContainersDnsRecords "env" "example.com" ToLowerASCII ex_both
        ex_current "web" "stack").1 !! ex_old
     = ex_current !! ex_old.
Proof.
  assert (Hname : "web" <> "") by discriminate.
  assert (Hkey : ex_old
                 <> ToLowerASCII
                      (Join ["web"; "stack"; "env"; "example.com"] ".")).
  { vm_compute. discriminate. }
  split; [exact Hname|]. split; [exact Hkey|].
  exact (getContainersDnsRecords_one_service "env" "example.com" ToLowerASCII
           ex_both ex_current "web" "stack" ex_old Hname Hkey).
Defined.


Lemma ex_ranges_nothing_desired :
  ranges ∅ ex_current (mkRangeOrder [] [ex_old; ex_web] []).
Proof. unfold ranges, range_of. split_and!; vm_compute; reflexivity. Defined.

Lemma ex_ranges_nothing_current :
  ranges ex_current ∅ (mkRangeOrder [ex_old; ex_web] [] [ex_old; ex_web]).
Proof. unfold ranges, range_of. split_and!; vm_compute; reflexivity. Defined.

(** Nothing desired: the two records of the provider are to be
    removed. *)
Lemma diff_nothing_desired_witness :
  ranges ∅ ex_current (mkRangeOrder [] [ex_old; ex_web] [])
  /\ addMissingRecords_toAdd [] ∅ ex_current = []
  /\ removeExtraRecords_toRemove [ex_old; ex_web] ∅ ex_current
     ≡ₚ (map_to_list ex_current).*2
  /\ updateExistingRecords_toUpdate [] ∅ ex_current = [].
Proof.
  split; [exact ex_ranges_nothing_desired|].
  exact (diff_nothing_desired ex_current _ ex_ranges_nothing_desired).
Defined.

(** Nothing at the provider: the two records are to be added. *)
Lemma diff_nothing_current_witness :
  ranges ex_current ∅ (mkRangeOrder [ex_old; ex_web] [] [ex_old; ex_web])
  /\ addMissingRecords_toAdd [ex_old; ex_web] ex_current ∅
     ≡ₚ (map_to_list ex_current).*2
  /\ removeExtraRecords_toRemove [] ex_current ∅ = []
  /\ updateExistingRecords_toUpdate [ex_old; ex_web] ex_current ∅ = [].
Proof.
  split; [exact ex_ranges_nothing_current|].
  exact (diff_nothing_current ex_current _ ex_ranges_nothing_current).
Defined.


(** No container and two records at the provider: one call, the removal
    of both. *)
Lemma UpdateDnsRecords_no_containers_witness :
  exists toRemove,
    toRemove ≡ₚ (map_to_list ex_current).*2
    /\ run "env" "example.com" ToLowerASCII
         (ex_accepting [ex_record ex_web "10.0.0.2";
                        ex_record ex_old "10.0.0.9"])
         (fun _ _ => Some "boom")
         (UpdateDnsRecords ex_none (mkRangeOrder [] [ex_old; ex_web] []))
       = ([Read_metadata; Read_provider; Applied Remove toRemove],
          Some ("Failed to remove extra records: " +:+ "boom")).
Proof.
  apply (UpdateDnsRecords_no_containers "env" "example.com" ToLowerASCII
           (ex_accepting [ex_record ex_web "10.0.0.2";
                          ex_record ex_old "10.0.0.9"])
           ex_none (mkRangeOrder [] [ex_old; ex_web] [])
           (fun _ _ => Some "boom") ex_current).
  - reflexivity.
  - vm_compute. reflexivity.
  - intros Hempty. apply (f_equal (fun m : RecordSet => m !! ex_web)) in Hempty.
    vm_compute in Hempty. discriminate.
  - exact ex_ranges_nothing_desired.
Defined.

(** Two records, the second received first and applied, the first held
    by the consumer. *)
Lemma updateRecords_calls_once_witness :
  exists handled,
    [(Add, ex_record ex_old "10.0.0.9")] = [] ++ (pair Add <$> handled)
    /\ [ex_record ex_web "10.0.0.1"; ex_record ex_old "10.0.0.9"]
       ≡ₚ [] ++ [ex_record ex_web "10.0.0.1"] ++ handled.
Proof.
  apply (updateRecords_calls_once (ex_accepting [])
           [ex_record ex_web "10.0.0.1"; ex_record ex_old "10.0.0.9"] Add []
           [Receive 1%nat; Done; Handle; Receive 0%nat]
           (mkApply [] 1 1 (Handling (ex_record ex_web "10.0.0.1"))
              [(Add, ex_record ex_old "10.0.0.9")] None)).
  vm_compute. reflexivity.
Defined.

(** Two records and a provider that fails: one call made, which failed,
    and the consumer has exited with its error. *)
Lemma updateRecords_stops_at_failure_witness :
  exists handled,
    [(Remove, ex_record ex_web "10.0.0.1")] = [] ++ (pair Remove <$> handled)
    /\ exists before value,
        handled = before ++ [value]
        /\ all_succeed (ex_failing []) Remove [] before = true
        /\ handle (ex_failing []) Remove ([] ++ (pair Remove <$> before)) value
           = Some
               "Failed to remove DNS record {web.stack.env.example.com [10.0.0.1] A 300}: boom".
Proof.
  apply (updateRecords_stops_at_failure (ex_failing [])
           [ex_record ex_web "10.0.0.1"; ex_record ex_old "10.0.0.9"]
           Remove [] [Receive 0%nat; Handle]
           (mkApply [ex_record ex_old "10.0.0.9"] 1 2
              (Exited
                 "Failed to remove DNS record {web.stack.env.example.com [10.0.0.1] A 300}: boom")
              [(Remove, ex_record ex_web "10.0.0.1")] None)).
  vm_compute. reflexivity.
Defined.

(** One record: the call returns while the consumer still holds the
    record, before any provider call. *)
Lemma updateRecords_returned_received_witness :
  Some (@None error) <> None
  /\ exists handled,
      [] = [] ++ (pair Update <$> handled)
      /\ [ex_record ex_web "10.0.0.1"]
         ≡ₚ [ex_record ex_web "10.0.0.1"] ++ handled.
Proof.
  assert (Hreturned : Some (@None error) <> None) by discriminate.
  split; [exact Hreturned|].
  apply (updateRecords_returned_received (ex_accepting [])
           [ex_record ex_web "10.0.0.1"] Update []
           [Receive 0%nat; Done; Wait]
           (mkApply [] 0 0 (Handling (ex_record ex_web "10.0.0.1")) []
              (Some None))).
  - vm_compute. reflexivity.
  - exact Hreturned.
Defined.

(** Two records and a provider that fails: after the first call the
    second sender stays blocked and the call does not return. *)
Lemma updateRecords_stuck_after_failure_witness :
  [ex_record ex_old "10.0.0.9"] <> []
  /\ returned
       (mkApply [ex_record ex_old "10.0.0.9"] 0 1
          (Exited
             "Failed to add DNS record {web.stack.env.example.com [10.0.0.1] A 300}: boom")
          [(Add, ex_record ex_web "10.0.0.1")] None)
     = None.
Proof.
  assert (Hblocked : [ex_record ex_old "10.0.0.9"] <> []) by discriminate.
  split; [exact Hblocked|].
  apply (updateRecords_stuck_after_failure (ex_failing [])
           [ex_record ex_web "10.0.0.1"; ex_record ex_old "10.0.0.9"] Add []
           [Receive 0%nat; Handle]
           (mkApply [ex_record ex_old "10.0.0.9"] 1 2
              (Exited
                 "Failed to add DNS record {web.stack.env.example.com [10.0.0.1] A 300}: boom")
              [(Add, ex_record ex_web "10.0.0.1")] None)
           "Failed to add DNS record {web.stack.env.example.com [10.0.0.1] A 300}: boom"
           [Done]).
  - vm_compute. reflexivity.
  - reflexivity.
  - exact Hblocked.
  - vm_compute. reflexivity.
Defined.

(** Two records and a provider that accepts: both applied in order. *)
Lemma updateRecords_in_turn_witness :
  all_succeed (ex_accepting []) Add []
    [ex_record ex_web "10.0.0.1"; ex_record ex_old "10.0.0.9"] = true
  /\ steps (ex_accepting []) Add (in_turn 2)
       (updateRecords_init
          [ex_record ex_web "10.0.0.1"; ex_record ex_old "10.0.0.9"] [])
     = Some
         (mkApply [] 0 0 Receiving
            ([] ++ (pair Add
                      <$> [ex_record ex_web "10.0.0.1";
                           ex_record ex_old "10.0.0.9"]))
            (Some None)).
Proof.
  assert (Hall : all_succeed (ex_accepting []) Add []
                   [ex_record ex_web "10.0.0.1"; ex_record ex_old "10.0.0.9"]
                 = true) by reflexivity.
  split; [exact Hall|].
  exact (updateRecords_in_turn (ex_accepting [])
           [ex_record ex_web "10.0.0.1"; ex_record ex_old "10.0.0.9"] Add []
           Hall).
Defined.
